(** * Multi-Platform Video Downloader: the download job orchestrator

    A shallow embedding of [backend/server.py] (class [VideoDownloader] and
    the [/api] endpoints that read or feed it), and the properties of the
    orchestrator proved or refuted on it.

    Python dictionaries are finite maps ([gmap string _]); [dict.update] is a
    right-biased merge; exceptions are values of the type [exn]. yt-dlp is
    outside the program: what it answers to a job, and how long it takes,
    is an input. The event loop is a step function over the points at which
    the coroutines, the executor threads and the requests interleave. *)

From Stdlib Require Import ZArith String Ascii List Lia.
From stdpp Require Import base option gmap strings list fin_maps pretty.

Local Open Scope string_scope.
Local Open Scope Z_scope.

(** ** Python values *)

(** The values stored in the option dictionaries handed to yt-dlp and in the
    info dictionaries it returns. *)
#[warnings="-register-all"]
Inductive pyval : Type :=
| PNone
| PBool (b : bool)
| PInt (n : Z)
| PStr (s : string)
| PTuple (l : list pyval)
| PList (l : list pyval)
| PDict (d : gmap string pyval)
| PHook (download_id : string).

Abbreviation pydict := (gmap string pyval).

(** [d.update(o)]: the keys of [o] win. *)
Definition dict_update {V} (d o : gmap string V) : gmap string V := o ∪ d.

(** [d.get(k, dflt)] *)
Definition dict_get {V} (d : gmap string V) (k : string) (dflt : V) : V :=
  default dflt (d !! k).

(** [needle in s] on Python strings. *)
Fixpoint str_in (needle s : string) : bool :=
  String.prefix needle s ||
  match s with
  | EmptyString => false
  | String _ s' => str_in needle s'
  end.

(** Truth value of a Python object ([bool(v)]). *)
Definition truthy (v : pyval) : bool :=
  match v with
  | PNone => false
  | PBool b => b
  | PInt n => negb (n =? 0)
  | PStr s => negb (String.eqb s "")
  | PTuple l | PList l => negb (Nat.eqb (length l) 0)
  | PDict d => negb (Nat.eqb (size d) 0)
  | PHook _ => true
  end.

(** ** Request model *)

Record VideoRequest := {
  url : string;
  format : string;
  quality : string;
  audio_only : bool;
  remove_watermark : bool
}.

(** ** Format and option selection *)

Module VideoDownloaderOptions.

Definition _detect_platform (u : string) : string :=
  if str_in "tiktok.com" u then "tiktok"
  else if str_in "instagram.com" u then "instagram"
  else if str_in "youtube.com" u || str_in "youtu.be" u then "youtube"
  else if str_in "facebook.com" u then "facebook"
  else if str_in "twitter.com" u || str_in "x.com" u then "twitter"
  else "unknown".

Definition quality_map : gmap string string :=
  list_to_map
    [ ("best", "bestvideo+bestaudio/best");
      ("worst", "worst");
      ("720p", "bestvideo[height<=720]+bestaudio/best[height<=720]");
      ("480p", "bestvideo[height<=480]+bestaudio/best[height<=480]");
      ("1080p", "bestvideo[height<=1080]+bestaudio/best[height<=1080]") ].

Definition _get_format_string (request : VideoRequest) (platform : string) : string :=
  if audio_only request then "bestaudio/best"
  else if String.eqb platform "tiktok" && remove_watermark request then "best[ext=mp4]"
  else dict_get quality_map (quality request) "bestvideo+bestaudio/best".

Definition _get_tiktok_options (request : VideoRequest) : pydict :=
  let options : pydict :=
    list_to_map
      [ ("http_headers",
         PDict (list_to_map
           [ ("User-Agent", PStr "Mozilla/5.0 (iPhone; CPU iPhone OS 14_6 like Mac OS X) AppleWebKit/605.1.15 (KHTML, like Gecko) Version/14.1.1 Mobile/15E148 Safari/604.1");
             ("Accept", PStr "*/*");
             ("Accept-Language", PStr "en-US,en;q=0.9");
             ("Accept-Encoding", PStr "gzip, deflate");
             ("Connection", PStr "keep-alive") ])) ] in
  if remove_watermark request then
    dict_update options
      (list_to_map
        [ ("extractor_args",
           PDict (list_to_map
             [ ("tiktok",
                PDict (list_to_map
                  [ ("api_hostname", PStr "api-h2.tiktokv.com");
                    ("webpage_cache", PBool true) ])) ])) ])
  else options.

Definition _get_instagram_options : pydict :=
  list_to_map
    [ ("http_headers",
       PDict (list_to_map
         [ ("User-Agent", PStr "Instagram 219.0.0.12.117 Android (28/9; 480dpi; 1080x2139; samsung; SM-G973F; beyond1; exynos9820; en_US; 314665256)");
           ("Accept", PStr "*/*");
           ("Accept-Language", PStr "en-US,en;q=0.9") ]));
      ("sleep_interval", PInt 1);
      ("max_sleep_interval", PInt 5) ].

Definition _get_youtube_options (request : VideoRequest) : pydict :=
  let options : pydict :=
    list_to_map
      [ ("extractflat", PBool false);
        ("cookies_from_browser", PTuple [PStr "chrome"]);
        ("writeautomaticsub", PBool false);
        ("writesubtitles", PBool false) ] in
  if audio_only request then <["format" := PStr "bestaudio/best"]> options
  else <["format" := PStr "bestvideo[ext=mp4]+bestaudio[ext=m4a]/mp4/best"]> options.

(** [str(self.download_dir / f"{download_id}.%(ext)s")] with
    [download_dir = Path("downloads")]. *)
Definition outtmpl (download_id : string) : string :=
  "downloads/" +:+ download_id +:+ ".%(ext)s".

Definition base_options
    (request : VideoRequest) (platform download_id : string) : pydict :=
  list_to_map
    [ ("outtmpl", PStr (outtmpl download_id));
      ("format", PStr (_get_format_string request platform));
      ("writeinfojson", PBool true);
      ("writethumbnail", PBool false);
      ("ignoreerrors", PBool false);
      ("no_warnings", PBool false);
      ("extractflat", PBool false);
      ("socket_timeout", PInt 30);
      ("retries", PInt 3) ].

Definition _build_yt_dlp_options
    (request : VideoRequest) (platform download_id : string) : pydict :=
  let base_options := base_options request platform download_id in
  if String.eqb platform "tiktok" then
    dict_update base_options (_get_tiktok_options request)
  else if String.eqb platform "instagram" then
    dict_update base_options _get_instagram_options
  else if String.eqb platform "youtube" then
    dict_update base_options (_get_youtube_options request)
  else base_options.

(** The options as the extractor receives them: [_execute_download] adds the
    progress hook and passes the dictionary to [yt_dlp.YoutubeDL]. *)
Definition extractor_options
    (request : VideoRequest) (download_id : string) : pydict :=
  let platform := _detect_platform (url request) in
  <["progress_hooks" := PList [PHook download_id]]>
    (_build_yt_dlp_options request platform download_id).

(** The format expression the extractor is given. *)
Definition extractor_format
    (request : VideoRequest) (download_id : string) : option pyval :=
  extractor_options request download_id !! "format".

(** The entry of the quality-tier table for a tier, with its default. *)
Definition tier_format (tier : string) : string :=
  dict_get quality_map tier "bestvideo+bestaudio/best".

End VideoDownloaderOptions.

Import VideoDownloaderOptions.

(** ** Exceptions *)

Inductive exn : Type :=
| ValueError (msg : string)
| TypeError (msg : string)
| KeyError (key : string)
| TimeoutError                      (* asyncio.TimeoutError *)
| DownloadError (msg : string)      (* what yt-dlp raises *)
| HTTPException (status_code : Z) (detail : string).

(** ** The extractor (yt-dlp), seen from one job *)

(** The two calls [download_sync] can make on [ydl]. *)
Inductive call : Type :=
| Inspect    (* ydl.extract_info(url, download=False) *)
| Download.  (* ydl.extract_info(url, download=True) *)

(** What yt-dlp does for the URL and options of one job: the value each
    call returns or the exception it raises, and how long the call takes
    (wall-clock seconds). *)
Record extraction := {
  inspect : exn + pydict;
  inspect_secs : Z;
  download : exn + pydict;
  download_secs : Z
}.

(** One run of [download_sync] in the executor thread. *)
Record sync_run := {
  calls : list call;
  elapsed : Z;
  outcome : exn + pydict
}.

(** Files on disk: path to [st_size]. *)
Abbreviation filesystem := (gmap string Z).

Definition type_name (v : pyval) : string :=
  match v with
  | PNone => "NoneType"
  | PBool _ => "bool"
  | PInt _ => "int"
  | PStr _ => "str"
  | PTuple _ => "tuple"
  | PList _ => "list"
  | PDict _ => "dict"
  | PHook _ => "function"
  end.

(** The integer a value stands for in arithmetic and comparisons. *)
Definition int_value (v : pyval) : option Z :=
  match v with
  | PInt n => Some n
  | PBool b => Some (if b then 1 else 0)
  | _ => None
  end.

(** [str(v)] for the scalars; statuses are always strings. *)
Definition py_str (v : pyval) : string :=
  match v with
  | PNone => "None"
  | PBool b => if b then "True" else "False"
  | PInt n => pretty n
  | PStr s => s
  | _ => ""
  end.

(** [v[k]] for a string key [k]. *)
Definition subscript (v : pyval) (k : string) : exn + pyval :=
  match v with
  | PDict d =>
      match d !! k with
      | Some x => inr x
      | None => inl (KeyError k)
      end
  | PStr _ => inl (TypeError "string indices must be integers, not 'str'")
  | PTuple _ | PList _ =>
      inl (TypeError (type_name v
                      +:+ " indices must be integers or slices, not str"))
  | _ => inl (TypeError ("'" +:+ type_name v
                         +:+ "' object is not subscriptable"))
  end.

(** [v == s] for a string literal [s]. *)
Definition is_str (v : pyval) (s : string) : bool :=
  match v with
  | PStr s' => String.eqb s' s
  | _ => false
  end.

(** [str(e)] of a FastAPI [HTTPException] is fixed by the installed
    Starlette version, and the [:.2f] rendering of a float by the Python
    runtime: both are taken as given. *)
Class Runtime := {
  str_HTTPException : Z → string → string;
  format_mb : Z → string   (* f"{n / (1024*1024):.2f}" *)
}.

Module Server.

(** [__init__] *)
Definition max_file_size : Z := 500 * 1024 * 1024.
Definition timeout_duration : Z := 600.
Definition semaphore_capacity : nat := 5.

Section Orchestration.

Context `{RT : !Runtime}.

Definition exn_str (e : exn) : string :=
  match e with
  | ValueError m | TypeError m | DownloadError m => m
  | KeyError k => "'" +:+ k +:+ "'"
  | TimeoutError => ""
  | HTTPException c d => str_HTTPException c d
  end.

Definition size_error (filesize : Z) : exn :=
  ValueError ("File size (" +:+ format_mb filesize
              +:+ "MB) exceeds maximum allowed size (500MB)").

(** The preflight test of [download_sync]:
    ['filesize' in info and info['filesize'] and info['filesize'] > self.max_file_size];
    [Some e] when the statement raises [e]. *)
Definition size_check (info : pydict) : option exn :=
  match info !! "filesize" with
  | None => None
  | Some v =>
      if truthy v then
        match int_value v with
        | Some n => if max_file_size <? n then Some (size_error n) else None
        | None =>
            Some (TypeError ("'>' not supported between instances of '"
                             +:+ type_name v +:+ "' and 'int'"))
        end
      else None
  end.

Definition download_sync (ydl : extraction) : sync_run :=
  match inspect ydl with
  | inl e => {| calls := [Inspect]; elapsed := inspect_secs ydl; outcome := inl e |}
  | inr info =>
      match size_check info with
      | Some e =>
          {| calls := [Inspect]; elapsed := inspect_secs ydl; outcome := inl e |}
      | None =>
          {| calls := [Inspect; Download];
             elapsed := inspect_secs ydl + download_secs ydl;
             outcome := download ydl |}
      end
  end.

(** [asyncio.wait_for(loop.run_in_executor(None, download_sync), timeout)]:
    the awaited run is given up once it has lasted longer than [timeout]. *)
Definition expired (r : sync_run) (timeout : Z) : bool := timeout <? elapsed r.

Definition wait_for (r : sync_run) (timeout : Z) : exn + pydict :=
  if expired r timeout then inl TimeoutError else outcome r.

Definition video_exts : list string := ["mp4"; "webm"; "mkv"; "avi"; "mov"; "flv"].
Definition audio_exts : list string := ["mp3"; "m4a"; "wav"; "ogg"; "aac"].

(** [main_file.name] and [str(main_file)] of
    [(self.download_dir / download_id).with_suffix(f'.{ext}')]; download
    identities are UUIDs, which contain no dot. *)
Definition file_name (download_id ext : string) : string :=
  download_id +:+ "." +:+ ext.
Definition file_path (download_id ext : string) : string :=
  "downloads/" +:+ file_name download_id ext.

(** The [for ext in ...: if file_path.exists(): ...; break] probes: the
    first extension whose file exists, with the [st_size] of that file. *)
Fixpoint first_existing (fs : filesystem) (download_id : string)
    (exts : list string) : option (string * Z) :=
  match exts with
  | [] => None
  | ext :: exts' =>
      match fs !! file_path download_id ext with
      | Some st_size => Some (ext, st_size)
      | None => first_existing fs download_id exts'
      end
  end.

Definition find_downloaded (fs : filesystem) (download_id : string)
    : option (string * Z) :=
  match first_existing fs download_id video_exts with
  | Some f => Some f
  | None => first_existing fs download_id audio_exts
  end.

Definition metadata_of (info : pydict) (u : string) : pydict :=
  list_to_map
    [ ("title", dict_get info "title" (PStr "Unknown"));
      ("uploader", dict_get info "uploader" (PStr "Unknown"));
      ("duration", dict_get info "duration" (PInt 0));
      ("view_count", dict_get info "view_count" (PInt 0));
      ("upload_date", dict_get info "upload_date" (PStr "Unknown"));
      ("platform", PStr (_detect_platform u)) ].

(** [_execute_download], given the extractor's behaviour on this job and
    the files on disk when the wait is over. *)
Definition _execute_download (u : string) (download_id : string)
    (ydl : extraction) (fs : filesystem) : exn + pydict :=
  match wait_for (download_sync ydl) timeout_duration with
  | inl TimeoutError =>
      inl (HTTPException 408
             "Download timeout - file is too large or connection is slow")
  | inl e => inl (HTTPException 500 ("Download failed: " +:+ exn_str e))
  | inr info =>
      match find_downloaded fs download_id with
      | None => inl (HTTPException 500 "No video file was downloaded")
      | Some (ext, file_size) =>
          inr (list_to_map
                 [ ("file_path", PStr (file_path download_id ext));
                   ("file_size", PInt file_size);
                   ("filename", PStr (file_name download_id ext));
                   ("metadata", PDict (metadata_of info u)) ])
      end
  end.

(** *** [download_video], cut at its one suspension point *)

(** From the acquisition of the semaphore to the [await] of the extraction:
    the record written into [active_downloads]. *)
Definition download_video_start (request : VideoRequest) (now : Z) : pydict :=
  list_to_map
    [ ("status", PStr "processing");
      ("start_time", PInt now);
      ("url", PStr (url request));
      ("message", PStr "Starting download...") ].

(** [end_time - self.active_downloads[download_id]["start_time"]] *)
Definition duration_since (rec : pydict) (end_time : Z) : exn + Z :=
  match rec !! "start_time" with
  | None => inl (KeyError "start_time")
  | Some v =>
      match int_value v with
      | Some s => inr (end_time - s)
      | None =>
          inl (TypeError ("unsupported operand type(s) for -: 'float' and '"
                          +:+ type_name v +:+ "'"))
      end
  end.

(** The [try] body after the extraction: the record update of success. *)
Definition complete_record (rec result : pydict) (end_time : Z) : exn + pydict :=
  match duration_since rec end_time with
  | inl e => inl e
  | inr duration =>
      inr (dict_update rec
             (list_to_map
                [ ("status", PStr "completed");
                  ("end_time", PInt end_time);
                  ("duration", PInt duration);
                  ("result", PDict result);
                  ("message", PStr "Download completed successfully!") ]))
  end.

(** The [except Exception as e] handler. *)
Definition fail_record (rec : pydict) (e : exn) (now : Z) : pydict :=
  dict_update rec
    (list_to_map
       [ ("status", PStr "failed");
         ("error", PStr (exn_str e));
         ("end_time", PInt now);
         ("message", PStr ("Download failed: " +:+ exn_str e)) ]).

(** From the end of the wait to the release of the semaphore: the record
    of the job as it is left, and what the coroutine returns or raises. *)
Definition download_video_finish (rec : pydict) (request : VideoRequest)
    (download_id : string) (ydl : extraction) (fs : filesystem) (now : Z)
    : pydict * (exn + pydict) :=
  match _execute_download (url request) download_id ydl fs with
  | inr result =>
      match complete_record rec result now with
      | inr rec' => (rec', inr result)
      | inl e => (fail_record rec e now, inl e)
      end
  | inl e => (fail_record rec e now, inl e)
  end.

(** [progress_hook(d)] on the record of its job; [None] is the [KeyError]
    of a [d] without ['status'], which yt-dlp never passes. *)
Definition progress_hook (rec d : pydict) : option pydict :=
  match d !! "status" with
  | None => None
  | Some s =>
      if is_str s "downloading" then
        Some (dict_update rec
                (list_to_map
                   [ ("progress", dict_get d "_percent_str" (PStr "N/A"));
                     ("speed", dict_get d "_speed_str" (PStr "N/A"));
                     ("eta", dict_get d "_eta_str" (PStr "N/A"));
                     ("downloaded_bytes", dict_get d "downloaded_bytes" (PInt 0));
                     ("total_bytes", dict_get d "total_bytes" (PInt 0)) ]))
      else if is_str s "finished" then
        Some (dict_update rec
                (list_to_map
                   [ ("status", PStr "processing");
                     ("message", PStr "Processing downloaded file...") ]))
      else Some rec
  end.

(** ** The running service *)

(** The downloader instance together with the tasks of the event loop.
    [tasks] are the background tasks added by [POST /api/download] that
    have not entered [async with self.semaphore] yet; [running] are the
    ones suspended in [_execute_download]; [threads] are the executor
    threads still inside [download_sync] (a thread outlives its task when
    the wait expires: [run_in_executor] work cannot be cancelled). *)
Record state := {
  active_downloads : gmap string pydict;
  semaphore : nat;
  tasks : gmap string VideoRequest;
  running : gmap string VideoRequest;
  threads : gset string
}.

(** [downloader = VideoDownloader()] *)
Definition init : state :=
  {| active_downloads := ∅;
     semaphore := semaphore_capacity;
     tasks := ∅;
     running := ∅;
     threads := ∅ |}.

(** The points at which the service moves. A submission carries the
    [uuid4] drawn for it, which is fresh. The events of a job that come
    from yt-dlp, the progress callbacks and the behaviour [ydl] that the
    end of the wait reveals, are not tied to one another: every
    interleaving the executor thread could produce is a trace, and [now] is
    the reading of [time.time()], in seconds. An [Admit] may take any
    waiting task when a permit is free: the order in which the semaphore
    wakes its waiters is left open, so that the runs of the program are
    among the traces, and what holds of every trace holds of the program. *)
Inductive event : Type :=
| Submit (download_id : string) (video_request : VideoRequest)
    (* POST /api/download *)
| Admit (download_id : string) (now : Z)
    (* a background task acquires the semaphore and runs up to its await *)
| Progress (download_id : string) (d : pydict)
    (* yt-dlp calls the progress hook from the executor thread *)
| Finish (download_id : string) (ydl : extraction) (fs : filesystem) (now : Z).
    (* the wait in [_execute_download] is over; the task runs to its end *)

(** [POST /api/download], the endpoint [download_video]: its response. The
    background task it adds is the [Submit] event below; the method
    [VideoDownloader.download_video] that the task runs is
    [download_video_start] followed, after the wait, by
    [download_video_finish]. *)
Definition download_video (download_id : string) : pydict :=
  list_to_map
    [ ("download_id", PStr download_id);
      ("status", PStr "queued");
      ("message", PStr "Download started successfully") ].

Definition step (st : state) (ev : event) : option state :=
  match ev with
  | Submit download_id video_request =>
      if bool_decide (download_id ∈ dom (tasks st)
                      ∨ download_id ∈ dom (active_downloads st))
      then None
      else Some {| active_downloads := active_downloads st;
                   semaphore := semaphore st;
                   tasks := <[download_id := video_request]> (tasks st);
                   running := running st;
                   threads := threads st |}
  | Admit download_id now =>
      match tasks st !! download_id, semaphore st with
      | Some request, S value =>
          Some {| active_downloads :=
                    <[download_id := download_video_start request now]>
                      (active_downloads st);
                  semaphore := value;
                  tasks := delete download_id (tasks st);
                  running := <[download_id := request]> (running st);
                  threads := {[download_id]} ∪ threads st |}
      | _, _ => None
      end
  | Progress download_id d =>
      if bool_decide (download_id ∈ threads st) then
        rec ← active_downloads st !! download_id;
        rec' ← progress_hook rec d;
        Some {| active_downloads := <[download_id := rec']> (active_downloads st);
                semaphore := semaphore st;
                tasks := tasks st;
                running := running st;
                threads := threads st |}
      else None
  | Finish download_id ydl fs now =>
      request ← running st !! download_id;
      rec ← active_downloads st !! download_id;
      let rec' := (download_video_finish rec request download_id ydl fs now).1 in
      Some {| active_downloads := <[download_id := rec']> (active_downloads st);
              semaphore := S (semaphore st);
              tasks := tasks st;
              running := delete download_id (running st);
              threads :=
                if expired (download_sync ydl) timeout_duration then threads st
                else threads st ∖ {[download_id]} |}
  end.

Fixpoint run (st : state) (trace : list event) : option state :=
  match trace with
  | [] => Some st
  | ev :: trace' => st' ← step st ev; run st' trace'
  end.

Definition reachable (st : state) : Prop := ∃ trace, run init trace = Some st.

(** *** The read-only endpoints *)

(** [GET /api/download/{download_id}/status] *)
Definition get_download_status (st : state) (download_id : string) : exn + pydict :=
  match active_downloads st !! download_id with
  | None => inl (HTTPException 404 "Download not found")
  | Some download_info =>
      match download_info !! "status" with
      | None => inl (KeyError "status")
      | Some status =>
          let response_data : pydict :=
            list_to_map
              [ ("download_id", PStr download_id);
                ("status", status);
                ("message",
                 dict_get download_info "message"
                   (PStr ("Download " +:+ py_str status)));
                ("progress", dict_get download_info "progress" PNone);
                ("speed", dict_get download_info "speed" PNone);
                ("eta", dict_get download_info "eta" PNone) ] in
          if is_str status "completed" then
            match download_info !! "result" with
            | None => inl (KeyError "result")
            | Some result =>
                match subscript result "file_size" with
                | inl e => inl e
                | inr file_size =>
                    match subscript result "metadata" with
                    | inl e => inl e
                    | inr metadata =>
                        inr (dict_update response_data
                               (list_to_map
                                  [ ("file_url",
                                     PStr ("/api/download/" +:+ download_id
                                           +:+ "/file"));
                                    ("file_size", file_size);
                                    ("duration",
                                     dict_get download_info "duration" PNone);
                                    ("metadata", metadata) ]))
                    end
                end
            end
          else inr response_data
      end
  end.

(** [GET /api/health] *)
Definition health_check (st : state) : pydict :=
  list_to_map
    [ ("status", PStr "healthy");
      ("service", PStr "Multi-Platform Video Downloader");
      ("version", PStr "1.0.0");
      ("active_downloads", PInt (Z.of_nat (size (active_downloads st)))) ].

(** *** Observations on states and traces *)

Definition status_of (st : state) (download_id : string) : option pyval :=
  rec ← active_downloads st !! download_id; rec !! "status".

Definition has_status (s : string) (rec : pydict) : bool :=
  match rec !! "status" with
  | Some v => is_str v s
  | None => false
  end.

Definition terminal (rec : pydict) : bool :=
  has_status "completed" rec || has_status "failed" rec.

(** The number of job records whose status is [s]. *)
Definition count_status (s : string) (st : state) : nat :=
  size (filter (λ kv, has_status s kv.2 = true) (active_downloads st)).

(** The job an event belongs to. *)
Definition event_id (ev : event) : string :=
  match ev with
  | Submit download_id _ | Admit download_id _ | Progress download_id _
  | Finish download_id _ _ _ => download_id
  end.

(** [ev] is a finished callback of the job [download_id]. *)
Definition finished_callback (download_id : string) (ev : event) : bool :=
  match ev with
  | Progress download_id' d =>
      String.eqb download_id' download_id && has_status "finished" d
  | _ => false
  end.

(** Every record in status processing belongs to a task that holds a
    permit. *)
Definition processing_running (st : state) : Prop :=
  ∀ download_id rec,
    active_downloads st !! download_id = Some rec →
    rec !! "status" = Some (PStr "processing") →
    is_Some (running st !! download_id).

(** [result["file_size"]] of a record. *)
Definition result_file_size (rec : pydict) : option pyval :=
  match rec !! "result" with
  | Some (PDict result) => result !! "file_size"
  | _ => None
  end.

(** The number of admissions in a trace. *)
Fixpoint admitted (trace : list event) : nat :=
  match trace with
  | [] => 0%nat
  | Admit _ _ :: trace' => S (admitted trace')
  | _ :: trace' => admitted trace'
  end.

(** A trace in which no finished callback reaches a job whose task is
    already over. Callbacks of any other status may come at any time. *)
Fixpoint no_late_finished (st : state) (trace : list event) : bool :=
  match trace with
  | [] => true
  | ev :: trace' =>
      match ev with
      | Progress download_id d =>
          negb (has_status "finished" d)
          || bool_decide (download_id ∈ dom (running st))
      | _ => true
      end &&
      match step st ev with
      | Some st' => no_late_finished st' trace'
      | None => true
      end
  end.

End Orchestration.

End Server.

Import Server.

(** ** The rest of the server *)

(** *** Request validation and the platform listing *)

Definition supported_domains : list string :=
  [ "youtube.com"; "youtu.be"; "tiktok.com";
    "instagram.com"; "facebook.com"; "twitter.com"; "x.com" ].

(** [VideoRequest.validate_supported_url], on [str(v)]. *)
Definition validate_supported_url (v : string) : exn + string :=
  if existsb (λ domain, str_in domain v) supported_domains then inr v
  else inl (ValueError "URL must be from a supported platform").

Record platform_entry := {
  name : string;
  domain : string;
  features : list string
}.

(** [GET /api/supported-platforms]: the list under ["platforms"]. *)
Definition get_supported_platforms : list platform_entry :=
  [ {| name := "YouTube"; domain := "youtube.com";
       features := ["High Quality"; "Multiple Formats"; "Subtitles"] |};
    {| name := "TikTok"; domain := "tiktok.com";
       features := ["Watermark Free"; "HD Quality"] |};
    {| name := "Instagram"; domain := "instagram.com";
       features := ["Stories"; "Reels"; "IGTV"] |};
    {| name := "Twitter/X"; domain := "twitter.com";
       features := ["Video Tweets"; "High Quality"] |};
    {| name := "Facebook"; domain := "facebook.com";
       features := ["Video Posts"; "Stories"] |} ].

(** *** The file endpoint *)

(** The text after the last occurrence of [c] in [s], when [c] occurs. *)
Fixpoint after_last (c : ascii) (s : string) : option string :=
  match s with
  | EmptyString => None
  | String a s' =>
      match after_last c s' with
      | Some r => Some r
      | None => if Ascii.eqb a c then Some s' else None
      end
  end.

(** [Path(s).name], for a path [s] that does not end in a slash. *)
Definition path_name (s : string) : string :=
  default s (after_last "/" s).

(** [Path(s).suffix]: with [i = name.rfind('.')], the text [name[i:]] when
    [0 < i < len(name) - 1], and the empty string otherwise. *)
Definition path_suffix (s : string) : string :=
  let name := path_name s in
  match after_last "." name with
  | Some r =>
      if Nat.ltb (S (String.length r)) (String.length name)
         && negb (Nat.eqb (String.length r) 0)
      then String "." r
      else ""
  | None => ""
  end.

(** [s[1:]] *)
Definition drop_first (s : string) : string :=
  match s with
  | EmptyString => ""
  | String _ s' => s'
  end.

(** The text of [v] in an f-string, for the scalars. *)
Definition format_value (v : pyval) : option string :=
  match v with
  | PNone | PBool _ | PInt _ | PStr _ => Some (py_str v)
  | _ => None
  end.

Record FileResponse := {
  path : string;
  filename : string;
  media_type : string
}.

(** [GET /api/download/{download_id}/file], with the files on disk at the
    time of the request. The answer is [None] where the record holds what
    the program never writes and the model does not cover: a file path
    that is not a string, a metadata that is not a dictionary, a title
    that is not a scalar. *)
Definition download_file (st : state) (fs : filesystem) (download_id : string)
    : option (exn + FileResponse) :=
  match active_downloads st !! download_id with
  | None => Some (inl (HTTPException 404 "Download not found"))
  | Some download_info =>
      match download_info !! "status" with
      | None => Some (inl (KeyError "status"))
      | Some status =>
          if negb (is_str status "completed") then
            Some (inl (HTTPException 400 "Download not completed"))
          else
            match download_info !! "result" with
            | None => Some (inl (KeyError "result"))
            | Some result =>
                match subscript result "file_path" with
                | inl e => Some (inl e)
                | inr (PStr file_path) =>
                    match fs !! file_path with
                    | None => Some (inl (HTTPException 404 "File not found"))
                    | Some _ =>
                        match subscript result "filename" with
                        | inl e => Some (inl e)
                        | inr original_filename =>
                            match subscript result "metadata" with
                            | inl e => Some (inl e)
                            | inr (PDict metadata) =>
                                match format_value
                                        (dict_get metadata "title" (PStr "video"))
                                with
                                | Some title =>
                                    Some (inr {| path := file_path;
                                                 filename :=
                                                   title +:+ "."
                                                   +:+ drop_first
                                                         (path_suffix file_path);
                                                 media_type :=
                                                   "application/octet-stream" |})
                                | None => None
                                end
                            | inr _ => None
                            end
                        end
                    end
                | inr _ => None
                end
            end
      end
  end.

(** *** Observations used below *)

(** The record of a job whose task is suspended in the extraction. *)
Definition running_shape (request : VideoRequest) (rec : pydict) : Prop :=
  rec !! "status" = Some (PStr "processing")
  ∧ (∃ start_time, rec !! "start_time" = Some (PInt start_time))
  ∧ rec !! "url" = Some (PStr (url request))
  ∧ rec !! "result" = None
  ∧ rec !! "error" = None
  ∧ rec !! "end_time" = None
  ∧ rec !! "duration" = None.

(** The record of a job that was completed. *)
Definition completed_shape (download_id : string) (rec : pydict) : Prop :=
  ∃ (u ext : string) (st_size start_time end_time : Z) (result metadata : pydict)
    (title : pyval),
    rec !! "status" = Some (PStr "completed")
    ∧ rec !! "url" = Some (PStr u)
    ∧ rec !! "start_time" = Some (PInt start_time)
    ∧ rec !! "end_time" = Some (PInt end_time)
    ∧ rec !! "duration" = Some (PInt (end_time - start_time))
    ∧ rec !! "error" = None
    ∧ rec !! "result" = Some (PDict result)
    ∧ ext ∈ (video_exts ++ audio_exts)%list
    ∧ result !! "file_path" = Some (PStr (file_path download_id ext))
    ∧ result !! "file_size" = Some (PInt st_size)
    ∧ result !! "filename" = Some (PStr (file_name download_id ext))
    ∧ result !! "metadata" = Some (PDict metadata)
    ∧ metadata !! "title" = Some title
    ∧ metadata !! "platform" = Some (PStr (_detect_platform u)).

(** The record of a job that failed; a late finished callback may have
    put its status back to processing. *)
Definition failed_shape (rec : pydict) : Prop :=
  (rec !! "status" = Some (PStr "failed")
   ∨ rec !! "status" = Some (PStr "processing"))
  ∧ (∃ error, rec !! "error" = Some (PStr error))
  ∧ (∃ end_time, rec !! "end_time" = Some (PInt end_time))
  ∧ rec !! "result" = None
  ∧ rec !! "duration" = None.

Definition record_shapes (st : state) : Prop :=
  ∀ download_id rec,
    active_downloads st !! download_id = Some rec →
    match running st !! download_id with
    | Some request => running_shape request rec
    | None =>
        (completed_shape download_id rec ∧ (download_id ∉ threads st))
        ∨ failed_shape rec
    end.

Definition is_admit (download_id : string) (ev : event) : bool :=
  match ev with
  | Admit download_id' _ => String.eqb download_id' download_id
  | _ => false
  end.

Definition is_finish (download_id : string) (ev : event) : bool :=
  match ev with
  | Finish download_id' _ _ _ => String.eqb download_id' download_id
  | _ => false
  end.

(** The number of events of a trace that satisfy [p]. *)
Fixpoint count_events (p : event → bool) (trace : list event) : nat :=
  match trace with
  | [] => 0%nat
  | ev :: trace' =>
      if p ev then S (count_events p trace') else count_events p trace'
  end.

(** ** Sample inputs *)

(** [f"{n / (1024*1024):.2f}"] for [0 <= n < 2^53], where the quotient is
    an exact float: hundredths of a MB, rounded half to even. *)
Definition hundredths_mb (n : Z) : Z :=
  let q := n * 100 / 1048576 in
  let r := n * 100 mod 1048576 in
  if (524288 <? r) || ((r =? 524288) && Z.odd q) then q + 1 else q.

Definition python_format_mb (n : Z) : string :=
  let h := hundredths_mb n in
  pretty (h / 100) +:+ "." +:+ pretty (h mod 100 / 10) +:+ pretty (h mod 10).

(** A runtime with Starlette's [HTTPException.__str__], which is
    [f"{status_code}: {detail}"]. *)
Definition starlette : Runtime :=
  {| str_HTTPException c d := pretty c +:+ ": " +:+ d;
     format_mb := python_format_mb |}.

Definition req_youtube_720p : VideoRequest :=
  {| url := "https://youtube.com/watch?v=X"; format := "mp4";
     quality := "720p"; audio_only := false; remove_watermark := true |}.

Definition req_instagram_480p : VideoRequest :=
  {| url := "https://www.instagram.com/reel/abc"; format := "mp4";
     quality := "480p"; audio_only := false; remove_watermark := true |}.

Definition req_tiktok_audio : VideoRequest :=
  {| url := "https://www.tiktok.com/@u/video/1"; format := "mp3";
     quality := "1080p"; audio_only := true; remove_watermark := true |}.

Definition req_plain : VideoRequest :=
  {| url := "https://x.com/u/status/1"; format := "mp4";
     quality := "best"; audio_only := false; remove_watermark := true |}.

Definition info_no_filesize : pydict :=
  list_to_map [ ("title", PStr "Clip"); ("duration", PInt 42) ].


(** The extractor reports no size, and downloads in 50 seconds. *)
Definition ydl_unsized : extraction :=
  {| inspect := inr info_no_filesize; inspect_secs := 2;
     download := inr info_no_filesize; download_secs := 50 |}.


(** The inspect takes 400 seconds and the download 300. *)
Definition ydl_slow : extraction :=
  {| inspect := inr info_no_filesize; inspect_secs := 400;
     download := inr info_no_filesize; download_secs := 300 |}.

(** A 600MB file written for job [job-1]. *)
Definition fs_600mb : filesystem := {[ "downloads/job-1.mp4" := 629145600 ]}.

Definition hook_finished : pydict :=
  list_to_map [ ("status", PStr "finished"); ("filename", PStr "downloads/job-1.mp4") ].

Definition hook_downloading : pydict :=
  list_to_map [ ("status", PStr "downloading"); ("_percent_str", PStr " 99.9%") ].

(** One job is submitted and admitted at time 0. *)
Definition trace_admitted : list event :=
  [ Submit "job-1" req_plain; Admit "job-1" 0 ].

(** One job is submitted, admitted at time 0 and times out. *)
Definition trace_timed_out : list event :=
  [ Submit "job-1" req_plain; Admit "job-1" 0; Finish "job-1" ydl_slow ∅ 600 ].

(** The same job, whose abandoned download then finishes. *)
Definition trace_timed_out_finished : list event :=
  [ Submit "job-1" req_plain; Admit "job-1" 0; Finish "job-1" ydl_slow ∅ 600;
    Progress "job-1" hook_finished ].

(** The states these traces lead to. *)
Definition st_submitted : state :=
  {| active_downloads := ∅;
     semaphore := 5;
     tasks := {[ "job-1" := req_plain ]};
     running := ∅;
     threads := ∅ |}.

Definition rec_started : pydict := download_video_start req_plain 0.

Definition st_admitted : state :=
  {| active_downloads := {[ "job-1" := rec_started ]};
     semaphore := 4;
     tasks := ∅;
     running := {[ "job-1" := req_plain ]};
     threads := {[ "job-1" ]} |}.

Definition rec_timed_out : pydict :=
  fail_record (RT := starlette) rec_started
    (HTTPException 408
       "Download timeout - file is too large or connection is slow")
    600.

Definition st_timed_out : state :=
  {| active_downloads := {[ "job-1" := rec_timed_out ]};
     semaphore := 5;
     tasks := ∅;
     running := ∅;
     threads := {[ "job-1" ]} |}.

(** The record of a job whose extractor reported no size and wrote 600MB. *)
Definition rec_unsized_done : pydict :=
  (download_video_finish (RT := starlette) rec_started req_plain "job-1"
     ydl_unsized fs_600mb 60).1.

(** Six submissions; the first five are admitted and time out, the sixth is
    admitted, and then the five abandoned downloads finish. *)
Definition trace_burst : list event :=
  [ Submit "job-1" req_plain; Submit "job-2" req_plain; Submit "job-3" req_plain;
    Submit "job-4" req_plain; Submit "job-5" req_plain; Submit "job-6" req_plain;
    Admit "job-1" 0; Admit "job-2" 0; Admit "job-3" 0; Admit "job-4" 0;
    Admit "job-5" 0;
    Finish "job-1" ydl_slow ∅ 600; Finish "job-2" ydl_slow ∅ 600;
    Finish "job-3" ydl_slow ∅ 600; Finish "job-4" ydl_slow ∅ 600;
    Finish "job-5" ydl_slow ∅ 600;
    Admit "job-6" 601;
    Progress "job-1" hook_finished; Progress "job-2" hook_finished;
    Progress "job-3" hook_finished; Progress "job-4" hook_finished;
    Progress "job-5" hook_finished ].

(** Six submissions; five are admitted, the first of them times out and a
    downloading callback of its abandoned download arrives afterwards, and
    the sixth is admitted with the permit given back. *)
Definition trace_busy : list event :=
  [ Submit "job-1" req_plain; Submit "job-2" req_plain; Submit "job-3" req_plain;
    Submit "job-4" req_plain; Submit "job-5" req_plain; Submit "job-6" req_plain;
    Admit "job-1" 0; Admit "job-2" 0; Admit "job-3" 0; Admit "job-4" 0;
    Admit "job-5" 0;
    Finish "job-1" ydl_slow ∅ 600;
    Progress "job-1" hook_downloading;
    Admit "job-6" 601 ].

(** A job whose download left an Opus file only. *)
Definition fs_opus : filesystem := {[ "downloads/job-1.opus" := 1000 ]}.


(** A downloading callback that brings the speed only. *)
Definition hook_downloading_speed : pydict :=
  list_to_map [ ("status", PStr "downloading"); ("_speed_str", PStr "1.2MiB/s") ].

(** One job is submitted, admitted at time 0 and completed at time 60. *)
Definition trace_done : list event :=
  [ Submit "job-1" req_plain; Admit "job-1" 0;
    Finish "job-1" ydl_unsized fs_600mb 60 ].

Definition st_done : state :=
  {| active_downloads := {[ "job-1" := rec_unsized_done ]};
     semaphore := 5;
     tasks := ∅;
     running := ∅;
     threads := ∅ |}.

(** ** The model on sample inputs *)

Example detect_platform_samples :
  map _detect_platform
    [ "https://youtu.be/x"; "https://x.com/a"; "https://www.tiktok.com/a";
      "https://www.instagram.com/reel/a"; "https://facebook.com/a";
      "https://example.com/a" ]
  = [ "youtube"; "twitter"; "tiktok"; "instagram"; "facebook"; "unknown" ].
Proof. reflexivity. Qed.

Example tiktok_watermark_format :
  _get_format_string
    {| url := "https://www.tiktok.com/a"; format := "mp4"; quality := "480p";
       audio_only := false; remove_watermark := true |} "tiktok"
  = "best[ext=mp4]".
Proof. reflexivity. Qed.

Example size_check_at_bound :
  size_check (RT := starlette) (<["filesize" := PInt 524288000]> ∅) = None.
Proof. vm_compute. reflexivity. Qed.

Example size_check_above_bound :
  size_check (RT := starlette) (<["filesize" := PInt 629145600]> ∅)
  = Some (ValueError "File size (600.00MB) exceeds maximum allowed size (500MB)").
Proof. vm_compute. reflexivity. Qed.

Example size_check_string :
  size_check (RT := starlette) (<["filesize" := PStr "big"]> ∅)
  = Some (TypeError "'>' not supported between instances of 'str' and 'int'").
Proof. vm_compute. reflexivity. Qed.

Example find_downloaded_video_first :
  find_downloaded {[ "downloads/a.m4a" := 5; "downloads/a.mkv" := 7 ]} "a"
  = Some ("mkv", 7).
Proof. vm_compute. reflexivity. Qed.

Example status_of_timed_out_job :
  match get_download_status st_timed_out "job-1" with
  | inr response => response !! "status"
  | inl _ => None
  end = Some (PStr "failed").
Proof. vm_compute. reflexivity. Qed.

(** ** Format selection *)

Section FormatSelection.

Implicit Types (request : VideoRequest) (platform download_id tier : string).

Lemma base_options_format request platform download_id :
  base_options request platform download_id !! "format"
  = Some (PStr (_get_format_string request platform)).
Proof. reflexivity. Qed.

Lemma tiktok_options_format request : _get_tiktok_options request !! "format" = None.
Proof. unfold _get_tiktok_options. by destruct (remove_watermark request). Qed.

Lemma instagram_options_format : _get_instagram_options !! "format" = None.
Proof. reflexivity. Qed.

Lemma youtube_options_format request :
  _get_youtube_options request !! "format"
  = Some (PStr (if audio_only request then "bestaudio/best"
                else "bestvideo[ext=mp4]+bestaudio[ext=m4a]/mp4/best")).
Proof.
  unfold _get_youtube_options.
  destruct (audio_only request); apply lookup_insert_eq.
Qed.

(** The format left in the options by [_build_yt_dlp_options]: YouTube's
    own entry replaces the one of [_get_format_string]. *)
Lemma build_options_format request platform download_id :
  _build_yt_dlp_options request platform download_id !! "format"
  = Some (PStr (if String.eqb platform "youtube" then
                  if audio_only request then "bestaudio/best"
                  else "bestvideo[ext=mp4]+bestaudio[ext=m4a]/mp4/best"
                else _get_format_string request platform)).
Proof.
  unfold _build_yt_dlp_options, dict_update.
  destruct (String.eqb_spec platform "tiktok") as [->|Htik].
  { rewrite lookup_union_r; [apply base_options_format | apply tiktok_options_format]. }
  destruct (String.eqb_spec platform "instagram") as [->|Hins].
  { rewrite lookup_union_r; [apply base_options_format | apply instagram_options_format]. }
  destruct (String.eqb_spec platform "youtube") as [->|Hyt].
  { erewrite lookup_union_Some_l; [reflexivity | apply youtube_options_format]. }
  apply base_options_format.
Qed.

Lemma extractor_format_eq request download_id :
  extractor_format request download_id
  = _build_yt_dlp_options request (_detect_platform (url request)) download_id
      !! "format".
Proof. unfold extractor_format, extractor_options. by rewrite lookup_insert_ne. Qed.

Lemma tier_format_unknown tier :
  tier ∉ ["best"; "worst"; "720p"; "480p"; "1080p"] →
  tier_format tier = "bestvideo+bestaudio/best".
Proof.
  intros Hnot. unfold tier_format, dict_get, quality_map.
  rewrite (not_elem_of_list_to_map_1 _ tier); [done|].
  simpl. exact Hnot.
Qed.

(** C8: an audio-only request always hands the extractor the format
    ['bestaudio/best'], whatever the URL (hence the platform detected), the
    quality tier and the watermark-removal flag. *)
Theorem audio_only_format request download_id :
  audio_only request = true →
  extractor_format request download_id = Some (PStr "bestaudio/best").
Proof.
  intros Haudio.
  rewrite extractor_format_eq, build_options_format.
  unfold _get_format_string. rewrite Haudio.
  by destruct (String.eqb _ "youtube").
Qed.

(** C4, amended: for a request that is not audio-only, on a platform other
    than TikTok, the extractor is given the entry of the quality-tier table
    unless the platform is YouTube; for YouTube it is given the fixed
    expression ['bestvideo[ext=mp4]+bestaudio[ext=m4a]/mp4/best'] whatever
    the tier. The table maps best, worst, 720p, 480p and 1080p to their
    expressions and every other tier to unconstrained best. *)
Theorem format_by_platform request download_id :
  audio_only request = false →
  _detect_platform (url request) ≠ "tiktok" →
  (_detect_platform (url request) ≠ "youtube" →
     extractor_format request download_id
     = Some (PStr (tier_format (quality request))))
  ∧ (_detect_platform (url request) = "youtube" →
     extractor_format request download_id
     = Some (PStr "bestvideo[ext=mp4]+bestaudio[ext=m4a]/mp4/best"))
  ∧ tier_format "best" = "bestvideo+bestaudio/best"
  ∧ tier_format "worst" = "worst"
  ∧ tier_format "720p" = "bestvideo[height<=720]+bestaudio/best[height<=720]"
  ∧ tier_format "480p" = "bestvideo[height<=480]+bestaudio/best[height<=480]"
  ∧ tier_format "1080p" = "bestvideo[height<=1080]+bestaudio/best[height<=1080]"
  ∧ (∀ tier, tier ∉ ["best"; "worst"; "720p"; "480p"; "1080p"] →
       tier_format tier = "bestvideo+bestaudio/best").
Proof.
  intros Haudio Htik.
  rewrite extractor_format_eq, build_options_format.
  unfold _get_format_string. rewrite Haudio.
  destruct (String.eqb_spec (_detect_platform (url request)) "tiktok") as [|_];
    [done|].
  destruct (String.eqb_spec (_detect_platform (url request)) "youtube") as [Hyt|Hyt].
  - repeat split; try done. apply tier_format_unknown.
  - repeat split; try done. apply tier_format_unknown.
Qed.

End FormatSelection.

(** C8 at a TikTok request asking for 1080p with watermark removal. *)
Lemma audio_only_format_witness :
  audio_only req_tiktok_audio = true
  ∧ extractor_format req_tiktok_audio "job-1" = Some (PStr "bestaudio/best").
Proof.
  split; [reflexivity|].
  apply (audio_only_format req_tiktok_audio "job-1"). reflexivity.
Defined.

(** C4 as stated fails on YouTube: a 720p request that is not audio-only
    is given the fixed mp4 expression, not the 720p entry of the table. *)
Lemma format_table_youtube_counterexample :
  audio_only req_youtube_720p = false
  ∧ _detect_platform (url req_youtube_720p) = "youtube"
  ∧ extractor_format req_youtube_720p "job-1"
    = Some (PStr "bestvideo[ext=mp4]+bestaudio[ext=m4a]/mp4/best")
  ∧ tier_format (quality req_youtube_720p)
    = "bestvideo[height<=720]+bestaudio/best[height<=720]"
  ∧ ¬ (∀ request download_id,
         audio_only request = false →
         _detect_platform (url request) ≠ "tiktok" →
         extractor_format request download_id
         = Some (PStr (tier_format (quality request)))).
Proof.
  assert (Hfmt : extractor_format req_youtube_720p "job-1"
                 = Some (PStr "bestvideo[ext=mp4]+bestaudio[ext=m4a]/mp4/best"))
    by (vm_compute; reflexivity).
  assert (Hplat : _detect_platform (url req_youtube_720p) = "youtube")
    by (vm_compute; reflexivity).
  split; [reflexivity|]. split; [exact Hplat|]. split; [exact Hfmt|].
  split; [vm_compute; reflexivity|].
  intros Hclaim.
  specialize (Hclaim req_youtube_720p "job-1" eq_refl).
  rewrite Hfmt, Hplat in Hclaim.
  assert (Hne : "youtube" ≠ "tiktok") by discriminate.
  specialize (Hclaim Hne). vm_compute in Hclaim. discriminate Hclaim.
Qed.

(** C4, amended, at an Instagram request asking for 480p. *)
Lemma format_by_platform_witness :
  audio_only req_instagram_480p = false
  ∧ _detect_platform (url req_instagram_480p) ≠ "tiktok"
  ∧ extractor_format req_instagram_480p "job-1"
    = Some (PStr "bestvideo[height<=480]+bestaudio/best[height<=480]").
Proof.
  assert (Hplat : _detect_platform (url req_instagram_480p) ≠ "tiktok")
    by (vm_compute; discriminate).
  split; [reflexivity|]. split; [exact Hplat|].
  destruct (format_by_platform req_instagram_480p "job-1" eq_refl Hplat)
    as (Htable & _).
  rewrite Htable; [reflexivity | vm_compute; discriminate].
Defined.

(** ** One job: size checks and the timeout *)

(** [k] is none of the keys of a dictionary display. *)
Ltac fresh_key Hk :=
  repeat (apply not_elem_of_cons in Hk as [? Hk]);
  simpl; by rewrite ?lookup_insert_ne.

(** A literal key is not in a list of other literal keys. *)
Ltac key_not_in :=
  let Hin := fresh "Hin" in
  intros Hin;
  repeat (apply elem_of_cons in Hin as [Hin|Hin]; [discriminate Hin|]);
  by apply elem_of_nil in Hin.


Section Job.

Context `{!Runtime}.

Implicit Types (rec info result d : pydict) (request : VideoRequest)
  (download_id : string) (ydl : extraction) (fs : filesystem) (e : exn).

Lemma dict_update_new {V} (d o : gmap string V) k v :
  o !! k = Some v → dict_update d o !! k = Some v.
Proof. intros Ho. unfold dict_update. by erewrite lookup_union_Some_l. Qed.

Lemma dict_update_old {V} (d o : gmap string V) k :
  o !! k = None → dict_update d o !! k = d !! k.
Proof. intros Ho. unfold dict_update. by rewrite lookup_union_r. Qed.

Lemma fail_record_status rec e now :
  fail_record rec e now !! "status" = Some (PStr "failed").
Proof. by apply dict_update_new. Qed.

Lemma fail_record_error rec e now :
  fail_record rec e now !! "error" = Some (PStr (exn_str e)).
Proof. by apply dict_update_new. Qed.

Lemma fail_record_old rec e now k :
  k ∉ ["status"; "error"; "end_time"; "message"] →
  fail_record rec e now !! k = rec !! k.
Proof.
  intros Hk. apply dict_update_old, not_elem_of_list_to_map_1. exact Hk.
Qed.

Lemma complete_record_inv rec result now rec' :
  complete_record rec result now = inr rec' →
  rec' !! "status" = Some (PStr "completed")
  ∧ rec' !! "result" = Some (PDict result)
  ∧ rec' !! "end_time" = Some (PInt now)
  ∧ ∀ k, k ∉ ["status"; "end_time"; "duration"; "result"; "message"] →
         rec' !! k = rec !! k.
Proof.
  unfold complete_record. destruct (duration_since rec now) as [e|dur]; [done|].
  intros Heq. injection Heq as <-.
  split; [by apply dict_update_new|].
  split; [by apply dict_update_new|].
  split; [by apply dict_update_new|].
  intros k Hk. apply dict_update_old.
  repeat (apply not_elem_of_cons in Hk as [? Hk]).
  by rewrite !lookup_insert_ne.
Qed.

Lemma complete_record_started rec result now s :
  rec !! "start_time" = Some (PInt s) →
  ∃ rec', complete_record rec result now = inr rec'.
Proof.
  intros Hs. unfold complete_record, duration_since. rewrite Hs. simpl. eauto.
Qed.

Lemma has_status_lookup s rec :
  rec !! "status" = Some (PStr s) → has_status s rec = true.
Proof. intros Hs. unfold has_status. rewrite Hs. simpl. apply String.eqb_refl. Qed.

Lemma has_status_inv s rec :
  has_status s rec = true → rec !! "status" = Some (PStr s).
Proof.
  unfold has_status. destruct (rec !! "status") as [[]|]; simpl; try done.
  by intros ->%String.eqb_eq.
Qed.

(** The record a job is left with is failed or completed, and completed
    only with the result of [_execute_download]. *)
Lemma download_video_finish_cases rec request download_id ydl fs now :
  (∃ e, download_video_finish rec request download_id ydl fs now
        = (fail_record rec e now, inl e))
  ∨ (∃ result rec',
       _execute_download (url request) download_id ydl fs = inr result
       ∧ complete_record rec result now = inr rec'
       ∧ download_video_finish rec request download_id ydl fs now
         = (rec', inr result)).
Proof.
  unfold download_video_finish.
  destruct (_execute_download _ _ _ _) as [e|result]; [by left; eexists|].
  destruct (complete_record rec result now) as [e|rec'] eqn:Hc.
  - left. by eexists.
  - right. by eexists _, _.
Qed.

Lemma download_video_finish_terminal rec request download_id ydl fs now :
  terminal (download_video_finish rec request download_id ydl fs now).1 = true.
Proof.
  unfold terminal.
  destruct (download_video_finish_cases rec request download_id ydl fs now)
    as [[e ->]|(result & rec' & _ & Hc & ->)]; simpl.
  - rewrite (has_status_lookup "failed"); [apply orb_true_r|].
    apply fail_record_status.
  - apply complete_record_inv in Hc as (Hs & _).
    by rewrite (has_status_lookup "completed").
Qed.

(** What a successful [_execute_download] has been through. *)
Lemma _execute_download_inr u download_id ydl fs result :
  _execute_download u download_id ydl fs = inr result →
  ∃ info ext st_size,
    expired (download_sync ydl) timeout_duration = false
    ∧ outcome (download_sync ydl) = inr info
    ∧ find_downloaded fs download_id = Some (ext, st_size)
    ∧ result !! "file_size" = Some (PInt st_size)
    ∧ result !! "file_path" = Some (PStr (file_path download_id ext)).
Proof.
  unfold _execute_download, wait_for.
  destruct (expired _ _); [done|].
  destruct (outcome (download_sync ydl)) as [[]|info]; try done.
  destruct (find_downloaded fs download_id) as [[ext st_size]|]; [|done].
  intros [= <-]. by eexists info, ext, st_size.
Qed.

Lemma _execute_download_returns u download_id ydl fs info ext st_size :
  expired (download_sync ydl) timeout_duration = false →
  outcome (download_sync ydl) = inr info →
  find_downloaded fs download_id = Some (ext, st_size) →
  ∃ result, _execute_download u download_id ydl fs = inr result
            ∧ result !! "file_size" = Some (PInt st_size).
Proof.
  intros He Ho Hf. unfold _execute_download, wait_for. rewrite He, Ho, Hf.
  eexists. split; reflexivity.
Qed.

Lemma first_existing_Some fs download_id exts ext st_size :
  first_existing fs download_id exts = Some (ext, st_size) →
  ext ∈ exts ∧ fs !! file_path download_id ext = Some st_size.
Proof.
  induction exts as [|x exts IH]; simpl; [done|].
  destruct (fs !! file_path download_id x) as [sz|] eqn:Hx.
  - intros [= <- <-]. split; [left | done].
  - intros Hrest. destruct (IH Hrest). split; [by right | done].
Qed.

Lemma find_downloaded_Some fs download_id ext st_size :
  find_downloaded fs download_id = Some (ext, st_size) →
  ext ∈ (video_exts ++ audio_exts)%list
  ∧ fs !! file_path download_id ext = Some st_size.
Proof.
  unfold find_downloaded.
  destruct (first_existing fs download_id video_exts) as [f|] eqn:Hv.
  - intros [= ->]. apply first_existing_Some in Hv as [??].
    split; [apply elem_of_app; by left | done].
  - intros Ha. apply first_existing_Some in Ha as [??].
    split; [apply elem_of_app; by right | done].
Qed.

(** A run of [download_sync] that returns has passed the preflight test. *)
Lemma download_sync_inr ydl info' :
  outcome (download_sync ydl) = inr info' →
  ∃ info, inspect ydl = inr info ∧ size_check info = None
          ∧ calls (download_sync ydl) = [Inspect; Download]
          ∧ download ydl = inr info'.
Proof.
  unfold download_sync. destruct (inspect ydl) as [e|info]; [done|].
  destruct (size_check info) as [e|] eqn:Hc; [done|].
  simpl. intros Hd. by exists info.
Qed.

Lemma size_check_None_bound info n :
  size_check info = None → info !! "filesize" = Some (PInt n) →
  n ≤ max_file_size.
Proof.
  unfold size_check. intros Hc Hn. rewrite Hn in Hc. simpl in Hc.
  destruct (n =? 0) eqn:Hz; simpl in Hc.
  - apply Z.eqb_eq in Hz. subst n. unfold max_file_size. lia.
  - destruct (max_file_size <? n) eqn:Hlt; [done|]. by apply Z.ltb_ge.
Qed.

Lemma size_check_exceeds info n :
  info !! "filesize" = Some (PInt n) → max_file_size < n →
  size_check info = Some (size_error n).
Proof.
  intros Hn Hlt. unfold size_check. rewrite Hn. simpl.
  assert ((n =? 0) = false) as -> by (apply Z.eqb_neq; unfold max_file_size in Hlt; lia).
  simpl. by apply Z.ltb_lt in Hlt as ->.
Qed.

Lemma size_check_falsy info :
  info !! "filesize" = None ∨ info !! "filesize" = Some PNone
  ∨ info !! "filesize" = Some (PInt 0) →
  size_check info = None.
Proof. unfold size_check. by intros [->|[->| ->]]. Qed.

(** C3, amended: for every job left completed, the file size recorded in
    its result is the [st_size] of the file found on disk for the job, the
    extraction ended within the timeout, and the preflight had raised no
    objection: the file size reported by the inspect call, when it is an
    integer, is at most the maximum of 500MB. No check is made on the size
    of the downloaded file. *)
Theorem completed_file_size rec request download_id ydl fs now :
  has_status "completed"
    (download_video_finish rec request download_id ydl fs now).1 = true →
  ∃ info ext st_size,
    inspect ydl = inr info
    ∧ (∀ n, info !! "filesize" = Some (PInt n) → n ≤ max_file_size)
    ∧ elapsed (download_sync ydl) ≤ timeout_duration
    ∧ find_downloaded fs download_id = Some (ext, st_size)
    ∧ fs !! file_path download_id ext = Some st_size
    ∧ result_file_size
        (download_video_finish rec request download_id ydl fs now).1
      = Some (PInt st_size).
Proof.
  destruct (download_video_finish_cases rec request download_id ydl fs now)
    as [[e ->]|(result & rec' & Hex & Hc & ->)]; simpl.
  { intros Hs%has_status_inv. by rewrite fail_record_status in Hs. }
  intros _.
  apply _execute_download_inr in Hex
    as (info' & ext & st_size & Hexp & Hout & Hfind & Hsize & _).
  apply download_sync_inr in Hout as (info & Hins & Hcheck & _ & _).
  apply complete_record_inv in Hc as (_ & Hres & _).
  exists info, ext, st_size. repeat split; try done.
  - intros n Hn. by eapply size_check_None_bound.
  - unfold expired in Hexp. by apply Z.ltb_ge.
  - by apply find_downloaded_Some in Hfind as [_ ?].
  - unfold result_file_size. by rewrite Hres.
Qed.


Lemma size_check_Some_truthy info e :
  size_check info = Some e →
  ∃ v, info !! "filesize" = Some v ∧ truthy v = true.
Proof.
  unfold size_check. destruct (info !! "filesize") as [v|]; [|done].
  destruct (truthy v) eqn:Hv; [|done]. intros _. by exists v.
Qed.

(** C10: the preflight rejects a job only if the inspect result has a
    truthy ['filesize']. When the inspect result has no ['filesize'], or
    has it [None] or [0], the preflight rejects nothing and [download_sync]
    goes on to the download call; and when that call returns within the
    timeout, the job is left completed with the size of the file found,
    whatever that size is. *)
Theorem unsized_download_unbounded rec request download_id ydl fs now info :
  inspect ydl = inr info →
  info !! "filesize" = None ∨ info !! "filesize" = Some PNone
  ∨ info !! "filesize" = Some (PInt 0) →
  (∀ info0 e, size_check info0 = Some e →
              ∃ v, info0 !! "filesize" = Some v ∧ truthy v = true)
  ∧ size_check info = None
  ∧ download_sync ydl
    = {| calls := [Inspect; Download];
         elapsed := inspect_secs ydl + download_secs ydl;
         outcome := download ydl |}
  ∧ ∀ info' ext st_size start_time,
      download ydl = inr info' →
      inspect_secs ydl + download_secs ydl ≤ timeout_duration →
      find_downloaded fs download_id = Some (ext, st_size) →
      rec !! "start_time" = Some (PInt start_time) →
      (download_video_finish rec request download_id ydl fs now).1 !! "status"
      = Some (PStr "completed")
      ∧ result_file_size
          (download_video_finish rec request download_id ydl fs now).1
        = Some (PInt st_size).
Proof.
  intros Hins Hfalsy.
  pose proof (size_check_falsy info Hfalsy) as Hcheck.
  assert (Hsync : download_sync ydl
                  = {| calls := [Inspect; Download];
                       elapsed := inspect_secs ydl + download_secs ydl;
                       outcome := download ydl |}).
  { unfold download_sync. by rewrite Hins, Hcheck. }
  split; [apply size_check_Some_truthy|]. split; [done|]. split; [done|].
  intros info' ext st_size start_time Hdown Hin Hfind Hstart.
  destruct (_execute_download_returns (url request) download_id ydl fs
              info' ext st_size) as (result & Hex & Hsize); try done.
  { unfold expired. rewrite Hsync. by apply Z.ltb_ge. }
  { by rewrite Hsync. }
  destruct (complete_record_started rec result now start_time Hstart)
    as [rec' Hc].
  unfold download_video_finish. rewrite Hex, Hc. simpl.
  apply complete_record_inv in Hc as (Hs & Hres & _).
  split; [done|]. unfold result_file_size. by rewrite Hres.
Qed.

End Job.

(** ** The service: invariants of the reachable states *)

Section Service.

Context `{!Runtime}.

Implicit Types (st : state) (ev : event) (trace : list event)
  (rec d : pydict) (request : VideoRequest) (download_id : string).

Lemma is_str_eq v s : is_str v s = true → v = PStr s.
Proof. destruct v; simpl; try done. by intros ->%String.eqb_eq. Qed.

(** What a progress hook does to a record: it never looks at the record. *)
Lemma progress_hook_inv rec d rec' :
  progress_hook rec d = Some rec' →
  (∀ k, k ∉ ["progress"; "speed"; "eta"; "downloaded_bytes"; "total_bytes";
             "status"; "message"] → rec' !! k = rec !! k)
  ∧ (has_status "downloading" d = true →
     rec' !! "status" = rec !! "status" ∧ rec' !! "message" = rec !! "message")
  ∧ (has_status "finished" d = true →
     rec' !! "status" = Some (PStr "processing"))
  ∧ (has_status "downloading" d = false → has_status "finished" d = false →
     rec' = rec).
Proof.
  unfold progress_hook, has_status.
  destruct (d !! "status") as [s|]; [|done].
  destruct (is_str s "downloading") eqn:Hdown.
  { intros Heq. injection Heq as <-.
    apply is_str_eq in Hdown as ->.
    split; [intros k Hk; apply dict_update_old; fresh_key Hk|].
    split; [intros _; split; by apply dict_update_old|].
    split; done. }
  destruct (is_str s "finished") eqn:Hfin.
  { intros Heq. injection Heq as <-.
    split; [intros k Hk; apply dict_update_old; fresh_key Hk|].
    split; [done|]. split; [intros _; by apply dict_update_new | done]. }
  intros Heq. injection Heq as <-. done.
Qed.


Lemma progress_hook_status rec d rec' :
  progress_hook rec d = Some rec' →
  rec' !! "status" = rec !! "status"
  ∨ rec' !! "status" = Some (PStr "processing").
Proof.
  intros Hhook. apply progress_hook_inv in Hhook as (_ & Hdown & Hfin & Hother).
  destruct (has_status "downloading" d) eqn:Hd; [left; by apply Hdown|].
  destruct (has_status "finished" d) eqn:Hf; [right; by apply Hfin|].
  left. by rewrite Hother.
Qed.

Lemma terminal_not_processing rec :
  terminal rec = true → rec !! "status" ≠ Some (PStr "processing").
Proof.
  unfold terminal. intros Hterm Hproc.
  apply orb_true_iff in Hterm as [Hs|Hs]; apply has_status_inv in Hs;
    by rewrite Hproc in Hs.
Qed.

Lemma terminal_cases rec :
  terminal rec = true →
  rec !! "status" = Some (PStr "completed")
  ∨ rec !! "status" = Some (PStr "failed").
Proof.
  unfold terminal. intros [Hs|Hs]%orb_true_iff; apply has_status_inv in Hs; auto.
Qed.

(** The invariant of the service. *)
Record invariant st : Prop := {
  inv_permits :
    (semaphore st + size (running st) = semaphore_capacity)%nat;
  inv_tasks : ∀ download_id,
    is_Some (tasks st !! download_id) →
    active_downloads st !! download_id = None;
  inv_running : ∀ download_id,
    is_Some (running st !! download_id) →
    ∃ rec start_time,
      active_downloads st !! download_id = Some rec
      ∧ rec !! "status" = Some (PStr "processing")
      ∧ rec !! "start_time" = Some (PInt start_time);
  inv_status : ∀ download_id rec,
    active_downloads st !! download_id = Some rec →
    rec !! "status" = Some (PStr "processing") ∨ terminal rec = true
}.

Lemma invariant_init : invariant init.
Proof.
  split; simpl.
  - by rewrite map_size_empty.
  - intros download_id [? Hl]. by rewrite lookup_empty in Hl.
  - intros download_id [? Hl]. by rewrite lookup_empty in Hl.
  - intros download_id rec Hl. by rewrite lookup_empty in Hl.
Qed.

Lemma invariant_not_both st download_id :
  invariant st → is_Some (tasks st !! download_id) →
  running st !! download_id = None.
Proof.
  intros Hinv Htask. destruct (running st !! download_id) as [request|] eqn:Hrun;
    [|done].
  destruct (inv_running st Hinv download_id) as (rec & ? & Hrec & _); [by eexists|].
  by rewrite (inv_tasks st Hinv download_id Htask) in Hrec.
Qed.

Lemma size_running_delete st download_id request :
  running st !! download_id = Some request →
  size (running st) = S (size (delete download_id (running st))).
Proof.
  intros Hrun.
  rewrite <-(insert_id (running st) download_id request) at 1 by done.
  rewrite <-insert_delete_eq.
  apply map_size_insert_None, lookup_delete_eq.
Qed.

Lemma step_submit st download_id request st' :
  step st (Submit download_id request) = Some st' →
  tasks st !! download_id = None
  ∧ active_downloads st !! download_id = None
  ∧ st' = {| active_downloads := active_downloads st;
             semaphore := semaphore st;
             tasks := <[download_id := request]> (tasks st);
             running := running st;
             threads := threads st |}.
Proof.
  simpl. case_bool_decide as Hfresh; [done|]. intros [= <-].
  split; [|split; [|done]]; apply not_elem_of_dom; tauto.
Qed.

Lemma step_admit st download_id now st' :
  step st (Admit download_id now) = Some st' →
  ∃ request value,
    tasks st !! download_id = Some request
    ∧ semaphore st = S value
    ∧ st' = {| active_downloads :=
                 <[download_id := download_video_start request now]>
                   (active_downloads st);
               semaphore := value;
               tasks := delete download_id (tasks st);
               running := <[download_id := request]> (running st);
               threads := {[download_id]} ∪ threads st |}.
Proof.
  simpl. destruct (tasks st !! download_id) as [request|]; [|done].
  destruct (semaphore st) as [|value]; [done|].
  intros [= <-]. by exists request, value.
Qed.

Lemma step_progress st download_id d st' :
  step st (Progress download_id d) = Some st' →
  ∃ rec rec',
    download_id ∈ threads st
    ∧ active_downloads st !! download_id = Some rec
    ∧ progress_hook rec d = Some rec'
    ∧ st' = {| active_downloads := <[download_id := rec']> (active_downloads st);
               semaphore := semaphore st;
               tasks := tasks st;
               running := running st;
               threads := threads st |}.
Proof.
  simpl. case_bool_decide as Hthread; [|done].
  destruct (active_downloads st !! download_id) as [rec|]; [|done]. simpl.
  destruct (progress_hook rec d) as [rec'|] eqn:Hhook; [|done]. simpl.
  intros [= <-]. by exists rec, rec'.
Qed.

Lemma step_finish st download_id ydl fs now st' :
  step st (Finish download_id ydl fs now) = Some st' →
  ∃ request rec,
    running st !! download_id = Some request
    ∧ active_downloads st !! download_id = Some rec
    ∧ st' = {| active_downloads :=
                 <[download_id :=
                     (download_video_finish rec request download_id ydl fs now).1]>
                   (active_downloads st);
               semaphore := S (semaphore st);
               tasks := tasks st;
               running := delete download_id (running st);
               threads :=
                 if expired (download_sync ydl) timeout_duration then threads st
                 else threads st ∖ {[download_id]} |}.
Proof.
  simpl. destruct (running st !! download_id) as [request|]; [|done]. simpl.
  destruct (active_downloads st !! download_id) as [rec|]; [|done]. simpl.
  intros [= <-]. by exists request, rec.
Qed.

Lemma step_invariant st ev st' :
  invariant st → step st ev = Some st' → invariant st'.
Proof.
  intros Hinv Hstep. destruct ev as [id request|id now|id d|id ydl fs now].
  - apply step_submit in Hstep as (Htask & Hrec & ->).
    split; simpl; [apply Hinv| |apply Hinv|apply Hinv].
    intros id' Hsome. destruct (decide (id = id')) as [<-|Hne]; [done|].
    rewrite lookup_insert_ne in Hsome by done. by apply Hinv.
  - apply step_admit in Hstep as (request & value & Htask & Hsem & ->).
    pose proof (invariant_not_both st id Hinv (mk_is_Some _ _ Htask)) as Hrun.
    split; simpl.
    + rewrite map_size_insert_None by done.
      pose proof (inv_permits st Hinv) as Hp. rewrite Hsem in Hp. lia.
    + intros id' [request' Hsome].
      destruct (decide (id = id')) as [<-|Hne];
        [by rewrite lookup_delete_eq in Hsome|].
      rewrite lookup_delete_ne in Hsome by done.
      rewrite lookup_insert_ne by done. apply Hinv. by eexists.
    + intros id' Hsome. destruct (decide (id = id')) as [<-|Hne].
      * exists (download_video_start request now), now.
        by rewrite lookup_insert_eq.
      * rewrite lookup_insert_ne in Hsome by done.
        rewrite lookup_insert_ne by done. by apply Hinv.
    + intros id' rec. destruct (decide (id = id')) as [<-|Hne].
      * rewrite lookup_insert_eq. intros [= <-]. by left.
      * rewrite lookup_insert_ne by done. apply Hinv.
  - apply step_progress in Hstep as (rec & rec' & Hthread & Hrec & Hhook & ->).
    pose proof (progress_hook_status rec d rec' Hhook) as Hstatus.
    apply progress_hook_inv in Hhook as (Hkeep & _).
    split; simpl; [apply Hinv| | |].
    + intros id' Hsome. destruct (decide (id = id')) as [<-|Hne].
      * by rewrite (inv_tasks st Hinv id Hsome) in Hrec.
      * rewrite lookup_insert_ne by done. by apply Hinv.
    + intros id' Hsome. destruct (decide (id = id')) as [<-|Hne].
      * destruct (inv_running st Hinv id Hsome) as (rec0 & s & Hrec0 & Hs & Ht).
        rewrite Hrec in Hrec0. injection Hrec0 as <-.
        exists rec', s. rewrite lookup_insert_eq. split; [done|]. split.
        -- destruct Hstatus as [-> | ->]; done.
        -- rewrite Hkeep; [done | key_not_in].
      * rewrite lookup_insert_ne by done. by apply Hinv.
    + intros id' rec0. destruct (decide (id = id')) as [<-|Hne].
      * rewrite lookup_insert_eq. intros [= <-].
        destruct Hstatus as [Hsame|Hproc]; [|by left].
        destruct (inv_status st Hinv id rec Hrec) as [Hp|Hterm];
          [left; by rewrite Hsame|].
        right. unfold terminal, has_status in *. by rewrite Hsame.
      * rewrite lookup_insert_ne by done. apply Hinv.
  - apply step_finish in Hstep as (request & rec & Hrun & Hrec & ->).
    split; simpl.
    + pose proof (inv_permits st Hinv) as Hp.
      rewrite (size_running_delete st id request Hrun) in Hp. lia.
    + intros id' Hsome. destruct (decide (id = id')) as [<-|Hne].
      * by rewrite (inv_tasks st Hinv id Hsome) in Hrec.
      * rewrite lookup_insert_ne by done. by apply Hinv.
    + intros id' [request' Hsome].
      destruct (decide (id = id')) as [<-|Hne];
        [by rewrite lookup_delete_eq in Hsome|].
      rewrite lookup_delete_ne in Hsome by done.
      rewrite lookup_insert_ne by done. apply Hinv. by eexists.
    + intros id' rec0. destruct (decide (id = id')) as [<-|Hne].
      * rewrite lookup_insert_eq. intros [= <-]. right.
        apply download_video_finish_terminal.
      * rewrite lookup_insert_ne by done. apply Hinv.
Qed.

Lemma run_invariant trace st st' :
  invariant st → run st trace = Some st' → invariant st'.
Proof.
  revert st. induction trace as [|ev trace IH]; simpl; intros st Hinv.
  - by intros [= <-].
  - destruct (step st ev) as [st1|] eqn:Hstep; [|done]. simpl.
    apply IH. by eapply step_invariant.
Qed.

Lemma reachable_invariant st : reachable st → invariant st.
Proof. intros [trace Hrun]. eapply run_invariant; [apply invariant_init|done]. Qed.

End Service.

(** ** The life of a job record *)

Section Lifecycle.

Context `{!Runtime}.

Implicit Types (st : state) (ev : event) (trace : list event)
  (rec d : pydict) (request : VideoRequest) (download_id : string).

Lemma status_of_Some st download_id rec :
  active_downloads st !! download_id = Some rec →
  status_of st download_id = rec !! "status".
Proof. unfold status_of. by intros ->. Qed.

Lemma status_of_None st download_id :
  active_downloads st !! download_id = None → status_of st download_id = None.
Proof. unfold status_of. by intros ->. Qed.

(** An event touches the record of its own job only. *)
Lemma step_other st ev st' download_id :
  step st ev = Some st' → event_id ev ≠ download_id →
  active_downloads st' !! download_id = active_downloads st !! download_id.
Proof.
  intros Hstep Hne. destruct ev as [id request|id now|id d|id ydl fs now];
    simpl in Hne.
  - by apply step_submit in Hstep as (_ & _ & ->).
  - apply step_admit in Hstep as (? & ? & _ & _ & ->). simpl.
    by rewrite lookup_insert_ne.
  - apply step_progress in Hstep as (? & ? & _ & _ & _ & ->). simpl.
    by rewrite lookup_insert_ne.
  - apply step_finish in Hstep as (? & ? & _ & _ & ->). simpl.
    by rewrite lookup_insert_ne.
Qed.

Lemma reachable_step st ev st' :
  reachable st → step st ev = Some st' → reachable st'.
Proof.
  intros [trace Hrun] Hstep. exists (trace ++ [ev])%list.
  clear -Hrun Hstep. revert Hrun. generalize init.
  induction trace as [|ev0 trace IH]; simpl; intros st0.
  - intros [= ->]. by rewrite Hstep.
  - destruct (step st0 ev0) as [st1|]; [|done]. simpl. apply IH.
Qed.

(** C1, amended: [POST /api/download] answers at once with the new
    identity and status queued, but writes no record: the job is only
    scheduled, and until it is admitted [GET .../status] answers 404. The
    record is created by the admission, in status processing, and a record
    enters completed or failed only from processing, by the end of its own
    task. *)
Theorem job_lifecycle st ev st' download_id :
  reachable st → step st ev = Some st' →
  (∀ request, ev = Submit download_id request →
     download_video download_id !! "download_id" = Some (PStr download_id)
     ∧ download_video download_id !! "status" = Some (PStr "queued")
     ∧ active_downloads st' = active_downloads st
     ∧ tasks st' !! download_id = Some request)
  ∧ (is_Some (tasks st' !! download_id) →
     active_downloads st' !! download_id = None
     ∧ get_download_status st' download_id
       = inl (HTTPException 404 "Download not found"))
  ∧ (status_of st download_id = None → status_of st' download_id ≠ None →
     (∃ now, ev = Admit download_id now)
     ∧ status_of st' download_id = Some (PStr "processing"))
  ∧ (∀ s, s ∈ ["completed"; "failed"] →
     status_of st' download_id = Some (PStr s) →
     status_of st download_id ≠ Some (PStr s) →
     status_of st download_id = Some (PStr "processing")
     ∧ ∃ ydl fs now, ev = Finish download_id ydl fs now).
Proof.
  intros Hreach Hstep.
  pose proof (reachable_invariant st Hreach) as Hinv.
  pose proof (step_invariant st ev st' Hinv Hstep) as Hinv'.
  split; [|split; [|split]].
  - intros request ->. apply step_submit in Hstep as (_ & _ & ->). simpl.
    by rewrite lookup_insert_eq.
  - intros Htask. pose proof (inv_tasks st' Hinv' download_id Htask) as Hnone.
    split; [done|]. unfold get_download_status. by rewrite Hnone.
  - intros Hnone Hsome.
    destruct (decide (event_id ev = download_id)) as [Heq|Hne]; last first.
    { exfalso. apply Hsome. unfold status_of in *.
      by rewrite (step_other st ev st' download_id Hstep Hne). }
    destruct ev as [id request|id now|id d|id ydl fs now]; simpl in Heq; subst id.
    + apply step_submit in Hstep as (_ & _ & ->). done.
    + apply step_admit in Hstep as (request & value & _ & _ & ->).
      split; [by eexists|]. unfold status_of. simpl.
      by rewrite lookup_insert_eq.
    + apply step_progress in Hstep as (rec & rec' & _ & Hrec & _ & _).
      rewrite (status_of_Some _ _ _ Hrec) in Hnone.
      destruct (inv_status st Hinv download_id rec Hrec) as [Hp|Hterm];
        [by rewrite Hp in Hnone|].
      apply terminal_cases in Hterm as [Hs|Hs]; by rewrite Hs in Hnone.
    + apply step_finish in Hstep as (request & rec & Hrun & Hrec & _).
      destruct (inv_running st Hinv download_id) as (rec0 & ? & Hrec0 & Hs & _);
        [by eexists|].
      rewrite (status_of_Some _ _ _ Hrec0), Hs in Hnone. done.
  - intros s Hs Hafter Hbefore.
    assert (Hnp : s ≠ "processing").
    { intros ->. revert Hs. key_not_in. }
    destruct (decide (event_id ev = download_id)) as [Heq|Hne]; last first.
    { exfalso. apply Hbefore. unfold status_of in *.
      by rewrite <-(step_other st ev st' download_id Hstep Hne). }
    destruct ev as [id request|id now|id d|id ydl fs now]; simpl in Heq; subst id.
    + apply step_submit in Hstep as (_ & _ & ->). done.
    + apply step_admit in Hstep as (request & value & _ & _ & ->).
      unfold status_of in Hafter. simpl in Hafter.
      rewrite lookup_insert_eq in Hafter. simpl in Hafter.
      injection Hafter as <-. done.
    + apply step_progress in Hstep as (rec & rec' & _ & Hrec & Hhook & ->).
      unfold status_of in Hafter. simpl in Hafter.
      rewrite lookup_insert_eq in Hafter. simpl in Hafter.
      rewrite (status_of_Some _ _ _ Hrec) in Hbefore.
      destruct (progress_hook_status rec d rec' Hhook) as [Hsame|Hproc].
      * by rewrite Hsame in Hafter.
      * rewrite Hproc in Hafter. injection Hafter as <-. done.
    + apply step_finish in Hstep as (request & rec & Hrun & Hrec & _).
      destruct (inv_running st Hinv download_id) as (rec0 & ? & Hrec0 & Hp & _);
        [by eexists|].
      split; [by rewrite (status_of_Some _ _ _ Hrec0)|]. by eexists _, _, _.
Qed.


(** Once the task of a job is over, only the progress callbacks of the job
    reach its record. *)
Lemma step_task_over st ev st' download_id rec :
  tasks st !! download_id = None →
  running st !! download_id = None →
  active_downloads st !! download_id = Some rec →
  step st ev = Some st' →
  tasks st' !! download_id = None
  ∧ running st' !! download_id = None
  ∧ ∃ rec',
      active_downloads st' !! download_id = Some rec'
      ∧ (∀ k, k ∈ ["result"; "error"; "end_time"; "duration"; "start_time";
                   "url"] → rec' !! k = rec !! k)
      ∧ (finished_callback download_id ev = false →
         rec' !! "status" = rec !! "status").
Proof.
  intros Htask Hrun Hrec Hstep.
  destruct (decide (event_id ev = download_id)) as [Heq|Hne]; last first.
  { pose proof (step_other st ev st' download_id Hstep Hne) as Hsame.
    assert (Hrest : tasks st' !! download_id = None
                    ∧ running st' !! download_id = None).
    { destruct ev as [id request|id now|id d|id ydl fs now]; simpl in Hne.
      - apply step_submit in Hstep as (_ & _ & ->). simpl.
        by rewrite lookup_insert_ne.
      - apply step_admit in Hstep as (? & ? & _ & _ & ->). simpl.
        by rewrite lookup_delete_ne, lookup_insert_ne.
      - by apply step_progress in Hstep as (? & ? & _ & _ & _ & ->).
      - apply step_finish in Hstep as (? & ? & _ & _ & ->). simpl.
        by rewrite lookup_delete_ne. }
    destruct Hrest as [? ?]. split; [done|]. split; [done|].
    exists rec. by rewrite Hsame. }
  destruct ev as [id request|id now|id d|id ydl fs now]; simpl in Heq; subst id.
  - apply step_submit in Hstep as (_ & Hnone & _). by rewrite Hnone in Hrec.
  - apply step_admit in Hstep as (? & ? & Hsome & _ & _).
    by rewrite Hsome in Htask.
  - apply step_progress in Hstep as (rec0 & rec' & _ & Hrec0 & Hhook & ->).
    rewrite Hrec in Hrec0. injection Hrec0 as <-. simpl.
    split; [done|]. split; [done|].
    exists rec'. rewrite lookup_insert_eq. split; [done|].
    apply progress_hook_inv in Hhook as (Hkeep & Hdown & _ & Hother).
    split.
    + intros k Hk. apply Hkeep. intros Hin.
      repeat (apply elem_of_cons in Hk as [->|Hk]; [revert Hin; key_not_in|]).
      by apply elem_of_nil in Hk.
    + rewrite String.eqb_refl. simpl. intros Hfin.
      destruct (has_status "downloading" d) eqn:Hd; [by apply Hdown|].
      by rewrite Hother.
  - apply step_finish in Hstep as (? & ? & Hsome & _ & _).
    by rewrite Hsome in Hrun.
Qed.

Lemma run_task_over trace st st' download_id rec :
  tasks st !! download_id = None →
  running st !! download_id = None →
  active_downloads st !! download_id = Some rec →
  run st trace = Some st' →
  ∃ rec',
    active_downloads st' !! download_id = Some rec'
    ∧ (∀ k, k ∈ ["result"; "error"; "end_time"; "duration"; "start_time";
                 "url"] → rec' !! k = rec !! k)
    ∧ (forallb (λ ev, negb (finished_callback download_id ev)) trace = true →
       rec' !! "status" = rec !! "status").
Proof.
  revert st rec. induction trace as [|ev trace IH]; simpl;
    intros st rec Htask Hrun Hrec.
  - intros [= <-]. by exists rec.
  - destruct (step st ev) as [st1|] eqn:Hstep; [|done]. simpl. intros Hrest.
    destruct (step_task_over st ev st1 download_id rec Htask Hrun Hrec Hstep)
      as (Htask1 & Hrun1 & rec1 & Hrec1 & Hkeep1 & Hstatus1).
    destruct (IH st1 rec1 Htask1 Hrun1 Hrec1 Hrest)
      as (rec' & Hrec' & Hkeep & Hstatus).
    exists rec'. split; [done|]. split.
    + intros k Hk. by rewrite Hkeep, Hkeep1.
    + intros [Hev Htrace]%andb_true_iff. apply negb_true_iff in Hev.
      by rewrite Hstatus, Hstatus1.
Qed.

(** C5, amended: a job whose extraction (the inspect call, and the
    download call when it is made) lasts longer than the timeout of 600
    seconds has its task end in status failed, with the error of the 408
    "Download timeout" exception; the task is over and its permit is back,
    while the executor thread is left running. From then on the record
    keeps that error, and it keeps the status failed as long as no
    finished callback of the abandoned call arrives. *)
Theorem timeout_fails st download_id request rec ydl fs now :
  reachable st →
  running st !! download_id = Some request →
  active_downloads st !! download_id = Some rec →
  timeout_duration < elapsed (download_sync ydl) →
  timeout_duration = 600
  ∧ (elapsed (download_sync ydl) = inspect_secs ydl
     ∨ calls (download_sync ydl) = [Inspect; Download]
       ∧ elapsed (download_sync ydl) = inspect_secs ydl + download_secs ydl)
  ∧ ∃ st',
      step st (Finish download_id ydl fs now) = Some st'
      ∧ status_of st' download_id = Some (PStr "failed")
      ∧ (active_downloads st' !! download_id ≫= (.!! "error"))
        = Some (PStr (str_HTTPException 408
                        "Download timeout - file is too large or connection is slow"))
      ∧ running st' !! download_id = None
      ∧ semaphore st' = S (semaphore st)
      ∧ threads st' = threads st
      ∧ ∀ trace st'',
          run st' trace = Some st'' →
          (active_downloads st'' !! download_id ≫= (.!! "error"))
          = Some (PStr (str_HTTPException 408
                          "Download timeout - file is too large or connection is slow"))
          ∧ (forallb (λ ev, negb (finished_callback download_id ev)) trace
             = true →
             status_of st'' download_id = Some (PStr "failed")).
Proof.
  intros Hreach Hrun Hrec Hlong.
  pose proof (reachable_invariant st Hreach) as Hinv.
  split; [done|]. split.
  { unfold download_sync. destruct (inspect ydl) as [e|info]; [by left|].
    destruct (size_check info); [by left | by right]. }
  assert (Hexp : expired (download_sync ydl) timeout_duration = true)
    by (by apply Z.ltb_lt).
  assert (Hfin : download_video_finish rec request download_id ydl fs now
                 = (fail_record rec
                      (HTTPException 408
                         "Download timeout - file is too large or connection is slow")
                      now,
                    inl (HTTPException 408
                         "Download timeout - file is too large or connection is slow"))).
  { unfold download_video_finish, _execute_download, wait_for. by rewrite Hexp. }
  assert (Htask : tasks st !! download_id = None).
  { destruct (tasks st !! download_id) as [request'|] eqn:Htask; [|done].
    by rewrite (inv_tasks st Hinv download_id (mk_is_Some _ _ Htask)) in Hrec. }
  eexists. simpl. rewrite Hrun, Hrec. simpl. rewrite Hfin, Hexp. simpl.
  split; [reflexivity|]. unfold status_of. simpl.
  rewrite !lookup_insert_eq, lookup_delete_eq. simpl.
  rewrite fail_record_status, fail_record_error.
  repeat (split; [done|]).
  intros trace st'' Hrest.
  eapply run_task_over in Hrest as (rec' & Hrec' & Hkeep & Hstatus); simpl;
    [|done|apply lookup_delete_eq|apply lookup_insert_eq].
  rewrite Hrec'. simpl. split.
  - rewrite Hkeep; [by rewrite fail_record_error|].
    apply list_elem_of_further, list_elem_of_here.
  - intros Hquiet. rewrite (Hstatus Hquiet). apply fail_record_status.
Qed.

End Lifecycle.

(** ** The admission gate and the job count *)

Section Gate.

Context `{!Runtime}.

Implicit Types (st : state) (ev : event) (trace : list event)
  (rec d : pydict) (request : VideoRequest) (download_id : string).

Lemma processing_running_init : processing_running init.
Proof. intros download_id rec Hrec. simpl in Hrec. by rewrite lookup_empty in Hrec. Qed.

Lemma step_processing_running st ev st' :
  invariant st → processing_running st → step st ev = Some st' →
  (∀ download_id d, ev = Progress download_id d →
                    has_status "finished" d = true →
                    is_Some (running st !! download_id)) →
  processing_running st'.
Proof.
  intros Hinv Hpr Hstep Hquiet id' rec' Hrec' Hproc.
  destruct (decide (event_id ev = id')) as [Heq|Hne].
  - destruct ev as [id request|id now|id d|id ydl fs now]; simpl in Heq; subst id.
    + apply step_submit in Hstep as (_ & _ & ->). simpl in *. by eapply Hpr.
    + apply step_admit in Hstep as (request & value & _ & _ & ->). simpl.
      by rewrite lookup_insert_eq.
    + apply step_progress in Hstep as (rec0 & rec1 & _ & Hrec0 & Hhook & ->).
      simpl in *. rewrite lookup_insert_eq in Hrec'. injection Hrec' as <-.
      destruct (has_status "finished" d) eqn:Hf;
        [exact (Hquiet id' d eq_refl Hf)|].
      apply progress_hook_inv in Hhook as (_ & Hdown & _ & Hother).
      destruct (has_status "downloading" d) eqn:Hd.
      * destruct (Hdown eq_refl) as [Hs _]. rewrite Hs in Hproc.
        by eapply Hpr.
      * rewrite (Hother eq_refl Hf) in Hproc. by eapply Hpr.
    + apply step_finish in Hstep as (request & rec & _ & _ & ->).
      simpl in Hrec'. rewrite lookup_insert_eq in Hrec'. injection Hrec' as <-.
      pose proof (download_video_finish_terminal rec request id' ydl fs now)
        as Hterm.
      by apply terminal_not_processing in Hterm.
  - rewrite (step_other st ev st' id' Hstep Hne) in Hrec'.
    pose proof (Hpr id' rec' Hrec' Hproc) as Hrun.
    destruct ev as [id request|id now|id d|id ydl fs now]; simpl in Hne.
    + by apply step_submit in Hstep as (_ & _ & ->).
    + apply step_admit in Hstep as (? & ? & _ & _ & ->). simpl.
      by rewrite lookup_insert_ne.
    + by apply step_progress in Hstep as (? & ? & _ & _ & _ & ->).
    + apply step_finish in Hstep as (? & ? & _ & _ & ->). simpl.
      by rewrite lookup_delete_ne.
Qed.

Lemma run_processing_running trace st st' :
  invariant st → processing_running st →
  run st trace = Some st' → no_late_finished st trace = true →
  processing_running st'.
Proof.
  revert st. induction trace as [|ev trace IH]; simpl; intros st Hinv Hpr.
  - by intros [= <-].
  - destruct (step st ev) as [st1|] eqn:Hstep; [|done]. simpl.
    intros Hrun [Hev Hrest]%andb_true_iff.
    apply (IH st1); try done.
    + by eapply step_invariant.
    + eapply step_processing_running; try done.
      intros id d -> Hf. rewrite Hf in Hev. simpl in Hev.
      apply bool_decide_eq_true in Hev. by apply elem_of_dom in Hev.
Qed.

Lemma count_processing_running st :
  invariant st → processing_running st →
  count_status "processing" st = size (running st).
Proof.
  intros Hinv Hpr. unfold count_status.
  rewrite <-(size_dom (D := gset string) (running st)).
  rewrite <-(size_dom (D := gset string)
               (filter (λ kv, has_status "processing" kv.2 = true)
                       (active_downloads st))).
  f_equal. apply set_eq. intros id. rewrite !elem_of_dom. split.
  - intros [rec Hrec].
    apply map_lookup_filter_Some in Hrec as [Hrec Hs]. simpl in Hs.
    eapply Hpr; [done|]. by apply has_status_inv.
  - intros Hrun.
    destruct (inv_running st Hinv id Hrun) as (rec & ? & Hrec & Hs & _).
    exists rec. apply map_lookup_filter_Some. split; [done|]. simpl.
    by apply has_status_lookup.
Qed.

Lemma run_admitted trace st st' :
  invariant st → run st trace = Some st' →
  size (active_downloads st') = (size (active_downloads st) + admitted trace)%nat.
Proof.
  revert st. induction trace as [|ev trace IH]; simpl; intros st Hinv.
  - intros [= <-]. lia.
  - destruct (step st ev) as [st1|] eqn:Hstep; [|done]. simpl. intros Hrun.
    pose proof (step_invariant st ev st1 Hinv Hstep) as Hinv1.
    rewrite (IH st1 Hinv1 Hrun).
    destruct ev as [id request|id now|id d|id ydl fs now].
    + by apply step_submit in Hstep as (_ & _ & ->).
    + apply step_admit in Hstep as (request & value & Htask & _ & ->). simpl.
      rewrite map_size_insert_None; [lia|].
      apply Hinv. by eexists.
    + apply step_progress in Hstep as (rec & ? & _ & Hrec & _ & ->). simpl.
      by rewrite map_size_insert_Some.
    + apply step_finish in Hstep as (? & rec & _ & Hrec & ->). simpl.
      by rewrite map_size_insert_Some.
Qed.

(** C7, amended: at most five jobs hold a permit of the semaphore at any
    time, for any burst of submissions, and the permits taken and free
    always add up to five; as long as no finished callback arrives for a
    job whose task is over (callbacks of any other status may arrive at any
    time), the records in status processing are as many as the jobs
    holding a permit, hence at most five. The end of a task
    gives its permit back on every outcome of the extraction, so that all
    five permits are free whenever no task is running. *)
Theorem admission_gate trace st :
  run init trace = Some st →
  semaphore_capacity = 5%nat
  ∧ (size (running st) ≤ semaphore_capacity)%nat
  ∧ (semaphore st + size (running st) = semaphore_capacity)%nat
  ∧ (no_late_finished init trace = true →
     count_status "processing" st = size (running st)
     ∧ (count_status "processing" st ≤ semaphore_capacity)%nat)
  ∧ (∀ download_id request ydl fs now,
       running st !! download_id = Some request →
       ∃ st', step st (Finish download_id ydl fs now) = Some st'
              ∧ semaphore st' = S (semaphore st)
              ∧ running st' !! download_id = None)
  ∧ (running st = ∅ → semaphore st = semaphore_capacity).
Proof.
  intros Hrun.
  pose proof (run_invariant trace init st invariant_init Hrun) as Hinv.
  pose proof (inv_permits st Hinv) as Hp.
  split; [done|]. split; [lia|]. split; [done|]. split; [|split].
  - intros Hquiet.
    pose proof (run_processing_running trace init st invariant_init
                  processing_running_init Hrun Hquiet) as Hpr.
    apply count_processing_running in Hpr; [|done]. split; [done | lia].
  - intros id request ydl fs now Hrunning.
    destruct (inv_running st Hinv id) as (rec & ? & Hrec & _); [by eexists|].
    eexists. simpl. rewrite Hrunning, Hrec. simpl.
    split; [reflexivity|]. simpl. by rewrite lookup_delete_eq.
  - intros Hempty. rewrite Hempty, map_size_empty in Hp. lia.
Qed.

(** C9, amended: the health endpoint reports the service healthy together
    with the number of job records, which is the number of jobs admitted
    so far: processing, completed and failed ones, none of which is ever
    removed. A job that was submitted and is not admitted yet has no record
    and is not counted. *)
Theorem health_counts_admitted trace st :
  run init trace = Some st →
  health_check st !! "status" = Some (PStr "healthy")
  ∧ health_check st !! "active_downloads"
    = Some (PInt (Z.of_nat (size (active_downloads st))))
  ∧ size (active_downloads st) = admitted trace
  ∧ (∀ download_id,
       is_Some (tasks st !! download_id) →
       active_downloads st !! download_id = None)
  ∧ (∀ download_id rec,
       active_downloads st !! download_id = Some rec →
       rec !! "status" = Some (PStr "processing")
       ∨ rec !! "status" = Some (PStr "completed")
       ∨ rec !! "status" = Some (PStr "failed"))
  ∧ (∀ ev st' download_id,
       step st ev = Some st' →
       is_Some (active_downloads st !! download_id) →
       is_Some (active_downloads st' !! download_id)).
Proof.
  intros Hrun.
  pose proof (run_invariant trace init st invariant_init Hrun) as Hinv.
  split; [done|]. split; [done|]. split.
  { rewrite (run_admitted trace init st invariant_init Hrun). simpl.
    by rewrite map_size_empty. }
  split; [apply Hinv|]. split.
  { intros id rec Hrec.
    destruct (inv_status st Hinv id rec Hrec) as [Hp|Hterm]; [by left|].
    right. by apply terminal_cases. }
  intros ev st' id Hstep Hsome.
  destruct (decide (event_id ev = id)) as [Heq|Hne];
    [|by rewrite (step_other st ev st' id Hstep Hne)].
  destruct ev as [id0 request|id0 now|id0 d|id0 ydl fs now]; simpl in Heq;
    subst id0.
  - by apply step_submit in Hstep as (_ & _ & ->).
  - apply step_admit in Hstep as (? & ? & _ & _ & ->). simpl.
    by rewrite lookup_insert_eq.
  - apply step_progress in Hstep as (? & ? & _ & _ & _ & ->). simpl.
    by rewrite lookup_insert_eq.
  - apply step_finish in Hstep as (? & ? & _ & _ & ->). simpl.
    by rewrite lookup_insert_eq.
Qed.

End Gate.

(** ** Validation, platforms and options *)

Section Requests.

Implicit Types (request : VideoRequest) (platform download_id u d : string).

Lemma prefix_append d s : String.prefix d (d +:+ s) = true.
Proof.
  induction d as [|a d IH]; simpl; [by destruct s|].
  by destruct (ascii_dec a a).
Qed.

Lemma str_in_unfold d s :
  str_in d s
  = String.prefix d s
    || match s with EmptyString => false | String _ s' => str_in d s' end.
Proof. by destruct s. Qed.

Lemma str_in_middle d before after : str_in d (before +:+ d +:+ after) = true.
Proof.
  induction before as [|a before IH].
  - change ("" +:+ d +:+ after) with (d +:+ after).
    by rewrite str_in_unfold, prefix_append.
  - change (String a before +:+ d +:+ after)
      with (String a (before +:+ d +:+ after)).
    by rewrite str_in_unfold, IH, orb_true_r.
Qed.

Lemma supported_domain_accepted d u :
  d ∈ supported_domains → str_in d u = true → validate_supported_url u = inr u.
Proof.
  intros Hd Hin. unfold validate_supported_url.
  assert (Hex : existsb (λ domain, str_in domain u) supported_domains = true).
  { apply existsb_exists. exists d. split; [by apply list_elem_of_In | done]. }
  by rewrite Hex.
Qed.

Lemma accepted_platform_known u :
  validate_supported_url u = inr u → _detect_platform u ≠ "unknown".
Proof.
  unfold validate_supported_url, _detect_platform, supported_domains.
  cbn [existsb].
  repeat match goal with
         | |- context [str_in ?d u] => destruct (str_in d u)
         end;
    cbn [orb]; intros Hok; discriminate.
Qed.

(** X1: The validator and the platform detection test the same seven
    domains: a URL is accepted exactly when its platform is not unknown. *)
Theorem validated_iff_known_platform u :
  validate_supported_url u = inr u ∧ _detect_platform u ≠ "unknown"
  ∨ validate_supported_url u
    = inl (ValueError "URL must be from a supported platform")
    ∧ _detect_platform u = "unknown".
Proof.
  unfold validate_supported_url, _detect_platform, supported_domains.
  cbn [existsb].
  repeat match goal with
         | |- context [str_in ?d u] => destruct (str_in d u)
         end;
    cbn [orb];
    first [ left; split; [reflexivity | discriminate]
          | right; split; reflexivity ].
Qed.

(** X2: The validator looks for the domain anywhere in the URL, not in its
    host: a URL that contains a supported domain at any place is accepted
    and is given a platform. *)
Theorem domain_anywhere_accepted d before after :
  d ∈ supported_domains →
  validate_supported_url (before +:+ d +:+ after)
  = inr (before +:+ d +:+ after)
  ∧ _detect_platform (before +:+ d +:+ after) ≠ "unknown".
Proof.
  intros Hd.
  pose proof (supported_domain_accepted d _ Hd (str_in_middle d before after))
    as Hok.
  split; [exact Hok | by apply accepted_platform_known].
Qed.

(** X3: Every platform of the listing is one the service takes: a URL that
    contains the domain of a listed platform passes the validator and is
    given a platform. *)
Theorem listed_platforms_supported p u :
  p ∈ get_supported_platforms →
  str_in (domain p) u = true →
  validate_supported_url u = inr u ∧ _detect_platform u ≠ "unknown".
Proof.
  intros Hp Hin.
  assert (Hd : domain p ∈ supported_domains).
  { unfold get_supported_platforms in Hp.
    repeat (apply elem_of_cons in Hp as [->|Hp]);
      [..|by apply elem_of_nil in Hp]; simpl;
      unfold supported_domains; rewrite !elem_of_cons; tauto. }
  pose proof (supported_domain_accepted _ _ Hd Hin) as Hok.
  split; [exact Hok | by apply accepted_platform_known].
Qed.

(** X4: The options handed to the extractor depend on the URL, on the
    audio-only flag, on the quality when the request is not audio-only and
    on the watermark flag when the URL is a TikTok one, and on nothing
    else: the [format] field of a request is never read, and the watermark
    flag is inert off TikTok. *)
Theorem options_depend_on request1 request2 download_id :
  url request1 = url request2 →
  audio_only request1 = audio_only request2 →
  (audio_only request1 = false → quality request1 = quality request2) →
  (_detect_platform (url request1) = "tiktok" →
   remove_watermark request1 = remove_watermark request2) →
  extractor_options request1 download_id
  = extractor_options request2 download_id.
Proof.
  destruct request1 as [u1 f1 q1 a1 w1], request2 as [u2 f2 q2 a2 w2].
  cbn [url audio_only quality remove_watermark].
  intros -> -> Hq Hw. unfold extractor_options. cbn [url].
  set (platform := _detect_platform u2) in *.
  f_equal.
  unfold _build_yt_dlp_options, base_options, _get_format_string,
    _get_tiktok_options, _get_youtube_options.
  cbn [audio_only remove_watermark quality].
  destruct (String.eqb_spec platform "tiktok") as [Heq|_].
  - rewrite (Hw Heq). destruct a2; [reflexivity|]. by rewrite Hq.
  - destruct a2; [reflexivity|]. by rewrite Hq.
Qed.

Lemma tiktok_options_keys request k :
  k ∉ ["http_headers"; "extractor_args"] →
  _get_tiktok_options request !! k = None.
Proof.
  intros Hk. unfold _get_tiktok_options, dict_update.
  destruct (remove_watermark request).
  - rewrite lookup_union_None. split; fresh_key Hk.
  - fresh_key Hk.
Qed.

Lemma instagram_options_keys k :
  k ∉ ["http_headers"; "sleep_interval"; "max_sleep_interval"] →
  _get_instagram_options !! k = None.
Proof. intros Hk. unfold _get_instagram_options. fresh_key Hk. Qed.

Lemma base_options_keys request platform download_id k v :
  base_options request platform download_id !! k = Some v →
  k ∈ ["outtmpl"; "format"; "writeinfojson"; "writethumbnail"; "ignoreerrors";
       "no_warnings"; "extractflat"; "socket_timeout"; "retries"].
Proof.
  intros Hk. unfold base_options in Hk.
  apply elem_of_list_to_map_2, (list_elem_of_fmap_2 fst) in Hk. exact Hk.
Qed.

Lemma build_options_keep_base request platform download_id k v :
  k ≠ "format" →
  base_options request platform download_id !! k = Some v →
  _build_yt_dlp_options request platform download_id !! k = Some v.
Proof.
  intros Hfmt Hbase.
  pose proof (base_options_keys _ _ _ _ _ Hbase) as Hk.
  unfold _build_yt_dlp_options, dict_update.
  destruct (String.eqb platform "tiktok").
  { rewrite lookup_union_r; [done|]. apply tiktok_options_keys.
    intros Hin. repeat (apply elem_of_cons in Hk as [->|Hk]);
      try (by apply elem_of_nil in Hk); revert Hin; key_not_in. }
  destruct (String.eqb platform "instagram").
  { rewrite lookup_union_r; [done|]. apply instagram_options_keys.
    intros Hin. repeat (apply elem_of_cons in Hk as [->|Hk]);
      try (by apply elem_of_nil in Hk); revert Hin; key_not_in. }
  destruct (String.eqb platform "youtube"); [|done].
  repeat (apply elem_of_cons in Hk as [->|Hk]);
    try (by apply elem_of_nil in Hk); try done;
    unfold _get_youtube_options; destruct (audio_only request);
    first [ rewrite lookup_union_r; [exact Hbase | reflexivity]
          | revert Hbase; unfold base_options;
            intros Hbase; vm_compute in Hbase; injection Hbase as <-;
            reflexivity ].
Qed.

(** X5: Whatever the platform, its own options and the progress hook leave
    every base option other than the format as it was set: the extractor is
    always given the output template of the job, three retries, the 30
    second socket timeout and the base flags. *)
Theorem base_options_kept request download_id k v :
  k ≠ "format" →
  base_options request (_detect_platform (url request)) download_id !! k
  = Some v →
  extractor_options request download_id !! k = Some v.
Proof.
  intros Hfmt Hbase. unfold extractor_options.
  pose proof (base_options_keys _ _ _ _ _ Hbase) as Hk.
  rewrite lookup_insert_ne.
  - by apply build_options_keep_base.
  - intros <-. revert Hk. key_not_in.
Qed.

End Requests.

(** ** Progress callbacks *)

Section Callbacks.

Context `{!Runtime}.

Implicit Types (rec d : pydict).

Lemma dict_update_twice {V} (d o1 o2 : gmap string V) :
  (∀ k, o2 !! k = None → o1 !! k = None) →
  dict_update (dict_update d o1) o2 = dict_update d o2.
Proof.
  intros Hkeys. unfold dict_update. apply map_eq. intros k.
  rewrite !lookup_union.
  destruct (o2 !! k) as [x|] eqn:Ho2.
  - by destruct (o1 !! k), (d !! k).
  - rewrite (Hkeys k Ho2). by destruct (d !! k).
Qed.

(** X6: Every downloading callback rewrites all five progress fields, with
    ['N/A'] or [0] for those it does not bring: of two downloading callbacks
    in a row only the second leaves a trace. *)
Theorem downloading_overwrites rec d1 d2 rec1 :
  has_status "downloading" d1 = true →
  has_status "downloading" d2 = true →
  progress_hook rec d1 = Some rec1 →
  progress_hook rec1 d2 = progress_hook rec d2.
Proof.
  unfold has_status, progress_hook.
  destruct (d1 !! "status") as [s1|]; [|done].
  destruct (d2 !! "status") as [s2|]; [|done].
  intros -> -> Heq. apply (inj Some) in Heq. subst rec1. f_equal.
  apply dict_update_twice. intros k Hk.
  apply not_elem_of_list_to_map in Hk.
  apply not_elem_of_list_to_map_1. exact Hk.
Qed.

(** A callback whose status is neither downloading nor finished (an error
    report of yt-dlp, say) leaves the record as it is. *)
Lemma other_callback_ignored rec d s :
  d !! "status" = Some (PStr s) →
  s ≠ "downloading" → s ≠ "finished" →
  progress_hook rec d = Some rec.
Proof.
  intros Hs Hd Hf. unfold progress_hook. rewrite Hs. simpl.
  apply String.eqb_neq in Hd as ->. by apply String.eqb_neq in Hf as ->.
Qed.

End Callbacks.

(** ** The artifact and the failures of a job *)

Section Artifact.

Context `{!Runtime}.

Implicit Types (rec info result : pydict) (request : VideoRequest)
  (download_id ext : string) (ydl : extraction) (fs : filesystem) (e : exn).

Lemma first_existing_app fs download_id (l1 l2 : list string) :
  first_existing fs download_id (l1 ++ l2)%list
  = match first_existing fs download_id l1 with
    | Some f => Some f
    | None => first_existing fs download_id l2
    end.
Proof.
  induction l1 as [|x l1 IH]; simpl; [done|].
  by destruct (fs !! file_path download_id x).
Qed.

Lemma first_existing_first fs download_id (exts : list string) ext st_size :
  first_existing fs download_id exts = Some (ext, st_size)
  ↔ ∃ earlier later,
      exts = (earlier ++ ext :: later)%list
      ∧ (∀ x, x ∈ earlier → fs !! file_path download_id x = None)
      ∧ fs !! file_path download_id ext = Some st_size.
Proof.
  induction exts as [|x exts IH]; simpl.
  - split; [done|]. intros (earlier & later & Heq & _).
    by destruct earlier.
  - destruct (fs !! file_path download_id x) as [sz|] eqn:Hx.
    + split.
      * intros [= <- <-]. exists [], exts. split; [done|]. split; [|done].
        intros y Hy. by apply elem_of_nil in Hy.
      * intros (earlier & later & Heq & Hnone & Hsome).
        destruct earlier as [|y earlier]; simpl in Heq.
        -- injection Heq as <- _. rewrite Hx in Hsome. by injection Hsome as <-.
        -- injection Heq as <- _.
           rewrite Hnone in Hx; [done | apply list_elem_of_here].
    + rewrite IH. split.
      * intros (earlier & later & -> & Hnone & Hsome).
        exists (x :: earlier), later. split; [done|]. split; [|done].
        intros y [->|Hy]%elem_of_cons; [done | by apply Hnone].
      * intros (earlier & later & Heq & Hnone & Hsome).
        destruct earlier as [|y earlier]; simpl in Heq.
        -- injection Heq as -> _. by rewrite Hx in Hsome.
        -- injection Heq as _ ->. exists earlier, later.
           split; [done|]. split; [|done].
           intros z Hz. apply Hnone. by apply list_elem_of_further.
Qed.

Lemma first_existing_None fs download_id (exts : list string) :
  first_existing fs download_id exts = None
  ↔ ∀ x, x ∈ exts → fs !! file_path download_id x = None.
Proof.
  induction exts as [|x exts IH]; simpl.
  - split; [|done]. intros _ y Hy. by apply elem_of_nil in Hy.
  - destruct (fs !! file_path download_id x) as [sz|] eqn:Hx.
    + split; [done|]. intros Hall.
      rewrite Hall in Hx; [done | apply list_elem_of_here].
    + rewrite IH. split.
      * intros Hall y [->|Hy]%elem_of_cons; [done | by apply Hall].
      * intros Hall y Hy. apply Hall. by apply list_elem_of_further.
Qed.

Lemma find_downloaded_app fs download_id :
  find_downloaded fs download_id
  = first_existing fs download_id (video_exts ++ audio_exts)%list.
Proof. unfold find_downloaded. by rewrite first_existing_app. Qed.

(** X7: The file taken for a job is the first that exists in the order mp4,
    webm, mkv, avi, mov, flv, mp3, m4a, wav, ogg, aac: a video file wins
    over an audio file, and no file is found exactly when none of the eleven
    exists. *)
Theorem find_downloaded_first fs download_id :
  (∀ ext st_size,
     find_downloaded fs download_id = Some (ext, st_size)
     ↔ ∃ earlier later,
         [ "mp4"; "webm"; "mkv"; "avi"; "mov"; "flv";
           "mp3"; "m4a"; "wav"; "ogg"; "aac" ]
         = (earlier ++ ext :: later)%list
         ∧ (∀ x, x ∈ earlier → fs !! file_path download_id x = None)
         ∧ fs !! file_path download_id ext = Some st_size)
  ∧ (find_downloaded fs download_id = None
     ↔ ∀ x, x ∈ [ "mp4"; "webm"; "mkv"; "avi"; "mov"; "flv";
                  "mp3"; "m4a"; "wav"; "ogg"; "aac" ] →
            fs !! file_path download_id x = None).
Proof.
  rewrite find_downloaded_app. split.
  - intros ext st_size. apply first_existing_first.
  - apply first_existing_None.
Qed.


(** X8: When the extraction returns in time but has left no file with one of
    the eleven extensions, the job is failed with the 500 error "No video
    file was downloaded", whatever else is on disk, and it gets no result. *)
Theorem no_known_file_fails rec request download_id ydl fs now info :
  outcome (download_sync ydl) = inr info →
  elapsed (download_sync ydl) ≤ timeout_duration →
  (∀ ext, ext ∈ (video_exts ++ audio_exts)%list →
          fs !! file_path download_id ext = None) →
  (download_video_finish rec request download_id ydl fs now).1 !! "status"
  = Some (PStr "failed")
  ∧ (download_video_finish rec request download_id ydl fs now).1 !! "error"
    = Some (PStr (str_HTTPException 500 "No video file was downloaded"))
  ∧ (download_video_finish rec request download_id ydl fs now).1 !! "result"
    = rec !! "result".
Proof.
  intros Hout Hin Hnone.
  assert (Hfind : find_downloaded fs download_id = None).
  { rewrite find_downloaded_app. by apply first_existing_None. }
  assert (Hex : _execute_download (url request) download_id ydl fs
                = inl (HTTPException 500 "No video file was downloaded")).
  { unfold _execute_download, wait_for, expired.
    apply Z.ltb_ge in Hin as ->. by rewrite Hout, Hfind. }
  unfold download_video_finish. rewrite Hex. simpl.
  split; [apply fail_record_status|]. split; [by rewrite fail_record_error|].
  apply fail_record_old. key_not_in.
Qed.


(** The record of a job that ends well, in full. *)
Lemma download_video_finish_completed
    rec request download_id ydl fs now info ext st_size start_time :
  rec !! "start_time" = Some (PInt start_time) →
  outcome (download_sync ydl) = inr info →
  elapsed (download_sync ydl) ≤ timeout_duration →
  find_downloaded fs download_id = Some (ext, st_size) →
  (download_video_finish rec request download_id ydl fs now).1
  = dict_update rec
      (list_to_map
         [ ("status", PStr "completed");
           ("end_time", PInt now);
           ("duration", PInt (now - start_time));
           ("result",
            PDict (list_to_map
                     [ ("file_path", PStr (file_path download_id ext));
                       ("file_size", PInt st_size);
                       ("filename", PStr (file_name download_id ext));
                       ("metadata",
                        PDict (metadata_of info (url request))) ]));
           ("message", PStr "Download completed successfully!") ]).
Proof.
  intros Hstart Hout Hin Hfind.
  unfold download_video_finish, _execute_download, wait_for, expired.
  apply Z.ltb_ge in Hin as ->. rewrite Hout, Hfind.
  unfold complete_record, duration_since. by rewrite Hstart.
Qed.

(** X10: The status endpoint on a job that ended well: it answers completed,
    with the link to the file, the size of the file found, the seconds
    between the admission and the end, and the metadata taken from the
    download call. *)
Theorem completed_status_response
    st rec request download_id ydl fs now info ext st_size start_time :
  rec !! "start_time" = Some (PInt start_time) →
  outcome (download_sync ydl) = inr info →
  elapsed (download_sync ydl) ≤ timeout_duration →
  find_downloaded fs download_id = Some (ext, st_size) →
  active_downloads st !! download_id
  = Some (download_video_finish rec request download_id ydl fs now).1 →
  ∃ response,
    get_download_status st download_id = inr response
    ∧ response !! "download_id" = Some (PStr download_id)
    ∧ response !! "status" = Some (PStr "completed")
    ∧ response !! "message" = Some (PStr "Download completed successfully!")
    ∧ response !! "file_url"
      = Some (PStr ("/api/download/" +:+ download_id +:+ "/file"))
    ∧ response !! "file_size" = Some (PInt st_size)
    ∧ response !! "duration" = Some (PInt (now - start_time))
    ∧ response !! "metadata" = Some (PDict (metadata_of info (url request))).
Proof.
  intros Hstart Hout Hin Hfind Hrec.
  rewrite (download_video_finish_completed rec request download_id ydl fs now
             info ext st_size start_time Hstart Hout Hin Hfind) in Hrec.
  unfold get_download_status. rewrite Hrec.
  erewrite dict_update_new by reflexivity. simpl is_str. cbn match.
  erewrite (dict_update_new rec _ "result") by reflexivity.
  unfold dict_get.
  erewrite (dict_update_new rec _ "message") by reflexivity.
  erewrite (dict_update_new rec _ "duration") by reflexivity.
  eexists. split; [reflexivity|].
  repeat split; by apply dict_update_new.
Qed.

(** The preflight test is strict: an integer size is let through exactly
    when it is at most 500 * 1024 * 1024 bytes, and a size above is
    refused with the size error. *)
Lemma preflight_accepts_iff info n :
  info !! "filesize" = Some (PInt n) →
  (size_check info = None ↔ n ≤ max_file_size)
  ∧ (max_file_size < n → size_check info = Some (size_error n))
  ∧ max_file_size = 524288000.
Proof.
  intros Hn. split; [|split; [by apply size_check_exceeds | reflexivity]].
  split; [intros Hc; by eapply size_check_None_bound|].
  intros Hle. unfold size_check. rewrite Hn. simpl.
  destruct (n =? 0); simpl; [done|].
  by apply Z.ltb_ge in Hle as ->.
Qed.

End Artifact.

(** ** The shape of the job records *)

Section Records.

Context `{!Runtime}.

Implicit Types (st : state) (ev : event) (trace : list event)
  (rec d : pydict) (request : VideoRequest) (download_id : string).

Lemma download_video_start_shape request now :
  running_shape request (download_video_start request now).
Proof. unfold running_shape. repeat split; try reflexivity. by exists now. Qed.

Lemma progress_hook_running_shape request rec d rec' :
  running_shape request rec → progress_hook rec d = Some rec' →
  running_shape request rec'.
Proof.
  intros (Hs & [s Hstart] & Hurl & Hres & Herr & Hend & Hdur) Hhook.
  pose proof (progress_hook_status rec d rec' Hhook) as Hstatus.
  apply progress_hook_inv in Hhook as (Hkeep & _).
  unfold running_shape.
  rewrite (Hkeep "start_time"), (Hkeep "url"), (Hkeep "result"),
    (Hkeep "error"), (Hkeep "end_time"), (Hkeep "duration") by key_not_in.
  split; [destruct Hstatus as [-> | ->]; done|]. split; [by exists s|]. done.
Qed.

Lemma progress_hook_failed_shape rec d rec' :
  failed_shape rec → progress_hook rec d = Some rec' → failed_shape rec'.
Proof.
  intros (Hs & Herr & Hend & Hres & Hdur) Hhook.
  pose proof (progress_hook_status rec d rec' Hhook) as Hstatus.
  apply progress_hook_inv in Hhook as (Hkeep & _).
  unfold failed_shape.
  rewrite (Hkeep "error"), (Hkeep "end_time"), (Hkeep "result"),
    (Hkeep "duration") by key_not_in.
  split; [|done]. destruct Hstatus as [-> | ->]; [done | by right].
Qed.

Lemma fail_record_shape request rec e now :
  running_shape request rec → failed_shape (fail_record rec e now).
Proof.
  intros (_ & _ & _ & Hres & _ & _ & Hdur). unfold failed_shape.
  split; [left; apply fail_record_status|].
  split; [eexists; apply fail_record_error|].
  split; [exists now; by apply dict_update_new|].
  split.
  - rewrite <-Hres. apply fail_record_old. key_not_in.
  - rewrite <-Hdur. apply fail_record_old. key_not_in.
Qed.

(** A task leaves its record completed, its thread being over, or
    failed. *)
Lemma download_video_finish_shape request rec download_id ydl fs now :
  running_shape request rec →
  completed_shape download_id
    (download_video_finish rec request download_id ydl fs now).1
  ∧ expired (download_sync ydl) timeout_duration = false
  ∨ failed_shape (download_video_finish rec request download_id ydl fs now).1.
Proof.
  intros Hshape.
  destruct (download_video_finish_cases rec request download_id ydl fs now)
    as [[e ->]|(result & rec' & Hex & _ & _)];
    [right; by eapply fail_record_shape|].
  left.
  apply _execute_download_inr in Hex
    as (info & ext & st_size & Hexp & Hout & Hfind & _).
  destruct Hshape as (_ & [s Hstart] & Hurl & _ & Herr & _).
  split; [|done].
  rewrite (download_video_finish_completed rec request download_id ydl fs now
             info ext st_size s); try done;
    [|unfold expired in Hexp; by apply Z.ltb_ge].
  apply find_downloaded_Some in Hfind as [Hext _].
  exists (url request), ext, st_size, s, now.
  eexists _, (metadata_of info (url request)),
    (dict_get info "title" (PStr "Unknown")).
  split; [by apply dict_update_new|].
  split; [rewrite dict_update_old; done|].
  split; [rewrite dict_update_old; done|].
  split; [by apply dict_update_new|].
  split; [by apply dict_update_new|].
  split; [rewrite dict_update_old; done|].
  split; [by apply dict_update_new|].
  split; [done|]. repeat split; reflexivity.
Qed.

Lemma record_shapes_init : record_shapes init.
Proof. intros download_id rec Hrec. simpl in Hrec. by rewrite lookup_empty in Hrec. Qed.

Lemma step_record_shapes st ev st' :
  invariant st → record_shapes st → step st ev = Some st' → record_shapes st'.
Proof.
  intros Hinv Hshapes Hstep id' rec' Hrec'.
  destruct ev as [id request|id now|id d|id ydl fs now].
  - apply step_submit in Hstep as (_ & _ & ->). simpl in *. by apply Hshapes.
  - apply step_admit in Hstep as (request & value & Htask & _ & ->).
    simpl in *. destruct (decide (id = id')) as [<-|Hne].
    + rewrite lookup_insert_eq in Hrec'. injection Hrec' as <-.
      rewrite lookup_insert_eq. apply download_video_start_shape.
    + rewrite lookup_insert_ne in Hrec' by done.
      rewrite lookup_insert_ne by done.
      specialize (Hshapes id' rec' Hrec').
      destruct (running st !! id'); [done|].
      destruct Hshapes as [[Hc Hth]|Hf]; [left|by right].
      split; [done|]. rewrite elem_of_union, elem_of_singleton.
      intros [Heq|Hin]; [by subst | done].
  - apply step_progress in Hstep as (rec & rec1 & Hthread & Hrec & Hhook & ->).
    simpl in *. destruct (decide (id = id')) as [<-|Hne].
    + rewrite lookup_insert_eq in Hrec'. injection Hrec' as <-.
      specialize (Hshapes id rec Hrec).
      destruct (running st !! id) as [request|].
      * by eapply progress_hook_running_shape.
      * destruct Hshapes as [[_ Hth]|Hf]; [done|].
        right. by eapply progress_hook_failed_shape.
    + rewrite lookup_insert_ne in Hrec' by done. by apply Hshapes.
  - apply step_finish in Hstep as (request & rec & Hrun & Hrec & ->).
    simpl in *. destruct (decide (id = id')) as [<-|Hne].
    + rewrite lookup_insert_eq in Hrec'. injection Hrec' as <-.
      rewrite lookup_delete_eq.
      specialize (Hshapes id rec Hrec). rewrite Hrun in Hshapes.
      destruct (download_video_finish_shape request rec id ydl fs now Hshapes)
        as [[Hc Hexp]|Hf]; [left|by right].
      split; [done|]. rewrite Hexp.
      rewrite elem_of_difference, elem_of_singleton. by intros [_ Hin].
    + rewrite lookup_insert_ne in Hrec' by done.
      rewrite lookup_delete_ne by done.
      specialize (Hshapes id' rec' Hrec').
      destruct (running st !! id'); [done|].
      destruct Hshapes as [[Hc Hth]|Hf]; [left|by right].
      split; [done|]. destruct (expired _ _); [done|].
      rewrite elem_of_difference. by intros [Hin _].
Qed.

Lemma run_record_shapes trace st st' :
  invariant st → record_shapes st → run st trace = Some st' →
  record_shapes st'.
Proof.
  revert st. induction trace as [|ev trace IH]; simpl; intros st Hinv Hshapes.
  - by intros [= <-].
  - destruct (step st ev) as [st1|] eqn:Hstep; [|done]. simpl.
    apply IH; [by eapply step_invariant | by eapply step_record_shapes].
Qed.

Lemma reachable_record_shapes st : reachable st → record_shapes st.
Proof.
  intros [trace Hrun].
  eapply run_record_shapes; [apply invariant_init|apply record_shapes_init|done].
Qed.

(** X11: In every state the service can reach, the record of a job whose
    task is still running has no result, no error and no end time; once the
    task is over the record has a result or an error and never both; a
    completed record has its result and a duration equal to its end time
    minus its start time, and a failed record has its error and no duration. *)
Theorem result_xor_error st download_id rec :
  reachable st →
  active_downloads st !! download_id = Some rec →
  (is_Some (running st !! download_id) →
   rec !! "result" = None ∧ rec !! "error" = None ∧ rec !! "end_time" = None)
  ∧ (running st !! download_id = None →
     is_Some (rec !! "result") ∧ rec !! "error" = None
     ∨ is_Some (rec !! "error") ∧ rec !! "result" = None)
  ∧ (rec !! "status" = Some (PStr "completed") →
     is_Some (rec !! "result")
     ∧ ∃ start_time end_time,
         rec !! "start_time" = Some (PInt start_time)
         ∧ rec !! "end_time" = Some (PInt end_time)
         ∧ rec !! "duration" = Some (PInt (end_time - start_time)))
  ∧ (rec !! "status" = Some (PStr "failed") →
     is_Some (rec !! "error") ∧ rec !! "duration" = None).
Proof.
  intros Hreach Hrec.
  pose proof (reachable_record_shapes st Hreach download_id rec Hrec) as Hshape.
  destruct (running st !! download_id) as [request|].
  - destruct Hshape as (Hs & _ & _ & Hres & Herr & Hend & _).
    split; [done|]. split; [done|].
    split; intros Hst; by rewrite Hs in Hst.
  - split; [by intros [??]|].
    destruct Hshape
      as [[(u & ext & sz & s & e & result & metadata & title & Hs & _ & Hstart
            & Hend & Hdur & Herr & Hres & _) _]
         |(Hs & [error Herr] & _ & Hres & Hdur)].
    + split; [left; by rewrite Hres|].
      split; [intros _; rewrite Hres; split; [done|]; by exists s, e|].
      intros Hst. by rewrite Hs in Hst.
    + split; [right; by rewrite Herr|].
      split; [intros Hst; destruct Hs as [Hs|Hs]; by rewrite Hs in Hst|].
      intros _. by rewrite Herr.
Qed.

(** X12: In every state the service can reach, the status endpoint answers
    every request: with 404 for an identity that has no record, and
    otherwise with the identity and a status that is processing, completed
    or failed, never with an internal error; a completed answer carries the
    file link, the file size and the metadata. *)
Theorem status_endpoint_answers st download_id :
  reachable st →
  active_downloads st !! download_id = None
  ∧ get_download_status st download_id
    = inl (HTTPException 404 "Download not found")
  ∨ ∃ response s,
      get_download_status st download_id = inr response
      ∧ response !! "download_id" = Some (PStr download_id)
      ∧ status_of st download_id = Some (PStr s)
      ∧ response !! "status" = Some (PStr s)
      ∧ s ∈ ["processing"; "completed"; "failed"]
      ∧ (s = "completed" →
         response !! "file_url"
         = Some (PStr ("/api/download/" +:+ download_id +:+ "/file"))
         ∧ (∃ st_size, response !! "file_size" = Some (PInt st_size))
         ∧ ∃ metadata, response !! "metadata" = Some (PDict metadata)).
Proof.
  intros Hreach.
  destruct (active_downloads st !! download_id) as [rec|] eqn:Hrec; last first.
  { left. split; [done|]. unfold get_download_status. by rewrite Hrec. }
  right.
  pose proof (reachable_record_shapes st Hreach download_id rec Hrec) as Hshape.
  assert (Hplain : ∀ s, rec !! "status" = Some (PStr s) → s ≠ "completed" →
            s ∈ ["processing"; "completed"; "failed"] →
            ∃ response s0,
              get_download_status st download_id = inr response
              ∧ response !! "download_id" = Some (PStr download_id)
              ∧ status_of st download_id = Some (PStr s0)
              ∧ response !! "status" = Some (PStr s0)
              ∧ s0 ∈ ["processing"; "completed"; "failed"]
              ∧ (s0 = "completed" →
                 response !! "file_url"
                 = Some (PStr ("/api/download/" +:+ download_id +:+ "/file"))
                 ∧ (∃ st_size, response !! "file_size" = Some (PInt st_size))
                 ∧ ∃ metadata, response !! "metadata" = Some (PDict metadata))).
  { intros s Hs Hne Hin. unfold get_download_status, status_of.
    rewrite Hrec. simpl. rewrite Hs. simpl is_str.
    pose proof Hne as Hne'. apply String.eqb_neq in Hne' as ->.
    eexists _, s. split; [reflexivity|].
    split; [reflexivity|]. split; [reflexivity|]. split; [reflexivity|].
    split; [exact Hin|]. by intros ->. }
  destruct (running st !! download_id) as [request|].
  - destruct Hshape as (Hs & _).
    apply (Hplain "processing"); [done|discriminate|]. apply list_elem_of_here.
  - destruct Hshape
      as [[(u & ext & sz & s & e & result & metadata & title & Hs & _ & _ & _
            & _ & _ & Hres & _ & _ & Hsize & _ & Hmeta & _) _]
         |([Hs|Hs] & _)].
    + unfold get_download_status, status_of. rewrite Hrec. simpl.
      rewrite Hs, Hres. simpl. rewrite Hsize, Hmeta.
      eexists _, "completed". split; [reflexivity|].
      split; [reflexivity|]. split; [done|].
      split; [reflexivity|].
      split; [apply list_elem_of_further, list_elem_of_here|].
      intros _. split; [reflexivity|].
      split; [exists sz|exists metadata]; reflexivity.
    + apply (Hplain "failed"); [done|discriminate|].
      apply list_elem_of_further, list_elem_of_further, list_elem_of_here.
    + apply (Hplain "processing"); [done|discriminate|]. apply list_elem_of_here.
Qed.

End Records.

(** ** Jobs that are over, jobs that wait, and the file endpoint *)

(** Goals over [if decide ...] on record and task lookups. *)
Ltac decided :=
  repeat case_decide; destruct_and?;
  first
    [ done
    | lia
    | exfalso;
      match goal with H : is_Some None |- _ => by apply is_Some_None in H end
    | exfalso;
      match goal with H : ¬ _ |- _ => apply H; by (repeat split; eauto) end ].

Section Jobs.

Context `{!Runtime}.

Implicit Types (st : state) (ev : event) (trace : list event)
  (rec d : pydict) (request : VideoRequest) (download_id ext : string).

(** An event leaves the jobs other than its own where they are. *)
Lemma step_other_job st ev st' download_id :
  step st ev = Some st' → event_id ev ≠ download_id →
  tasks st' !! download_id = tasks st !! download_id
  ∧ running st' !! download_id = running st !! download_id
  ∧ (download_id ∈ threads st' ↔ download_id ∈ threads st)
  ∧ active_downloads st' !! download_id = active_downloads st !! download_id.
Proof.
  intros Hstep Hne.
  pose proof (step_other st ev st' download_id Hstep Hne) as Hsame.
  destruct ev as [id request|id now|id d|id ydl fs now]; simpl in Hne.
  - apply step_submit in Hstep as (_ & _ & ->). simpl in *.
    by rewrite lookup_insert_ne.
  - apply step_admit in Hstep as (? & ? & _ & _ & ->). simpl in *.
    rewrite lookup_delete_ne, lookup_insert_ne by done.
    repeat split; try done.
    + rewrite elem_of_union, elem_of_singleton. intros [?|?]; [by subst|done].
    + intros ?. apply elem_of_union. by right.
  - by apply step_progress in Hstep as (? & ? & _ & _ & _ & ->).
  - apply step_finish in Hstep as (? & ? & _ & _ & ->). simpl in *.
    rewrite lookup_delete_ne by done. repeat split; try done.
    + destruct (expired _ _); [done|]. rewrite elem_of_difference. by intros [??].
    + intros Hin. destruct (expired _ _); [done|].
      rewrite elem_of_difference, elem_of_singleton. split; [done|]. by intros ->.
Qed.

Lemma step_counts st ev st' download_id :
  invariant st → step st ev = Some st' →
  ((if is_admit download_id ev then 1 else 0)
   + (if decide (is_Some (active_downloads st !! download_id)) then 1 else 0)
   = if decide (is_Some (active_downloads st' !! download_id)) then 1 else 0)%nat
  ∧ ((if is_finish download_id ev then 1 else 0)
     + (if decide (is_Some (active_downloads st !! download_id)
                   ∧ running st !! download_id = None) then 1 else 0)
     = if decide (is_Some (active_downloads st' !! download_id)
                  ∧ running st' !! download_id = None) then 1 else 0)%nat.
Proof.
  intros Hinv Hstep.
  destruct (decide (event_id ev = download_id)) as [Heq|Hne]; last first.
  { destruct (step_other_job st ev st' download_id Hstep Hne)
      as (_ & Hr & _ & Ha).
    rewrite Hr, Ha.
    assert (is_admit download_id ev = false ∧ is_finish download_id ev = false)
      as [-> ->]; [|done].
    destruct ev; simpl in *; try done; split; try done;
      by apply String.eqb_neq. }
  destruct ev as [id request|id now|id d|id ydl fs now]; simpl in Heq;
    subst id; simpl is_admit; simpl is_finish; rewrite ?String.eqb_refl.
  - by apply step_submit in Hstep as (_ & _ & ->).
  - apply step_admit in Hstep as (request & value & Htask & _ & ->). simpl.
    rewrite (inv_tasks st Hinv download_id (mk_is_Some _ _ Htask)).
    rewrite !lookup_insert_eq. split; decided.
  - apply step_progress in Hstep as (rec & rec' & _ & Hrec & _ & ->). simpl.
    rewrite Hrec, lookup_insert_eq. split; decided.
  - apply step_finish in Hstep as (request & rec & Hrun & Hrec & ->). simpl.
    rewrite Hrec, Hrun, lookup_insert_eq, lookup_delete_eq. split; decided.
Qed.

Lemma run_counts trace st st' download_id :
  invariant st → run st trace = Some st' →
  (count_events (is_admit download_id) trace
   + (if decide (is_Some (active_downloads st !! download_id)) then 1 else 0)
   = if decide (is_Some (active_downloads st' !! download_id)) then 1 else 0)%nat
  ∧ (count_events (is_finish download_id) trace
     + (if decide (is_Some (active_downloads st !! download_id)
                   ∧ running st !! download_id = None) then 1 else 0)
     = if decide (is_Some (active_downloads st' !! download_id)
                  ∧ running st' !! download_id = None) then 1 else 0)%nat.
Proof.
  revert st. induction trace as [|ev trace IH]; simpl; intros st Hinv.
  - by intros [= <-].
  - destruct (step st ev) as [st1|] eqn:Hstep; [|done]. simpl. intros Hrun.
    pose proof (step_invariant st ev st1 Hinv Hstep) as Hinv1.
    destruct (IH st1 Hinv1 Hrun) as [IHa IHf].
    destruct (step_counts st ev st1 download_id Hinv Hstep) as [Ha Hf].
    destruct (is_admit download_id ev), (is_finish download_id ev); lia.
Qed.

(** X15: A job is admitted at most once and its task ends at most once, in
    every run of the service: there is no retry. It has been admitted
    exactly when it has a record, and its task has ended exactly when it has
    a record and is no longer running. *)
Theorem job_runs_once trace st download_id :
  run init trace = Some st →
  (count_events (is_admit download_id) trace ≤ 1)%nat
  ∧ (count_events (is_finish download_id) trace
     ≤ count_events (is_admit download_id) trace)%nat
  ∧ (count_events (is_admit download_id) trace = 1%nat
     ↔ is_Some (active_downloads st !! download_id))
  ∧ (count_events (is_finish download_id) trace = 1%nat
     ↔ is_Some (active_downloads st !! download_id)
       ∧ running st !! download_id = None).
Proof.
  intros Hrun.
  destruct (run_counts trace init st download_id invariant_init Hrun)
    as [Ha Hf].
  simpl in Ha, Hf. rewrite lookup_empty in Ha, Hf.
  rewrite (decide_False (P := is_Some None)) in Ha by apply is_Some_None.
  rewrite (decide_False (P := is_Some None ∧ _)) in Hf
    by (intros [Hn _]; by apply is_Some_None in Hn).
  repeat case_decide; repeat split; intros; try lia; tauto.
Qed.

(** *** The file endpoint *)

Lemma after_last_app c a b :
  after_last c (a +:+ b)
  = match after_last c b with
    | Some r => Some r
    | None => (λ r, r +:+ b) <$> after_last c a
    end.
Proof.
  induction a as [|x a IH].
  - change ("" +:+ b) with b. by destruct (after_last c b).
  - change (String x a +:+ b) with (String x (a +:+ b)). simpl.
    rewrite IH. destruct (after_last c b); [done|].
    destruct (after_last c a); simpl; [done|]. by destruct (Ascii.eqb x c).
Qed.

Lemma length_append a b :
  String.length (a +:+ b) = (String.length a + String.length b)%nat.
Proof.
  induction a as [|x a IH]; [done|].
  change (String x a +:+ b) with (String x (a +:+ b)). simpl. by rewrite IH.
Qed.

Lemma known_ext ext :
  ext ∈ (video_exts ++ audio_exts)%list →
  after_last "." ext = None ∧ after_last "/" ext = None
  ∧ String.length ext ≠ 0%nat.
Proof.
  unfold video_exts, audio_exts. simpl. intros Hext.
  repeat (apply elem_of_cons in Hext as [->|Hext]);
    [..|by apply elem_of_nil in Hext]; by repeat split.
Qed.

(** The suffix of the path of an artifact is its extension. *)
Lemma path_suffix_file_path download_id ext :
  download_id ≠ "" → after_last "/" download_id = None →
  ext ∈ (video_exts ++ audio_exts)%list →
  path_suffix (file_path download_id ext) = String "." ext.
Proof.
  intros Hid Hslash Hext.
  destruct (known_ext ext Hext) as (Hdot & Hsl & Hlen).
  assert (Hname : path_name (file_path download_id ext)
                  = download_id +:+ String "." ext).
  { unfold path_name, file_path, file_name.
    rewrite after_last_app.
    change ("." +:+ ext) with (String "." ext).
    rewrite (after_last_app "/" download_id (String "." ext)).
    simpl after_last at 1. rewrite Hsl. simpl. rewrite Hslash. done. }
  unfold path_suffix. rewrite Hname, after_last_app.
  cbn [after_last]. rewrite Hdot.
  change (Ascii.eqb "." ".") with true. cbn match.
  rewrite length_append. cbn [String.length].
  assert (String.length download_id ≠ 0%nat) as Hl by (by destruct download_id).
  assert (Hlt : Nat.ltb (S (String.length ext))
                  (String.length download_id + S (String.length ext)) = true)
    by (apply Nat.ltb_lt; lia).
  rewrite Hlt. by apply Nat.eqb_neq in Hlen as ->.
Qed.

(** X16: In every state the service can reach, the file endpoint answers 404
    for an identity without record, 400 for a job that is not completed
    (running, failed, or put back to processing), and for a completed job
    404 when the file named in its result is no longer on disk and
    otherwise that file, under the name made of the title held in the
    metadata of its result and the extension of the file. *)
Theorem download_file_answers st fs download_id :
  reachable st →
  download_id ≠ "" → after_last "/" download_id = None →
  (active_downloads st !! download_id = None →
   download_file st fs download_id
   = Some (inl (HTTPException 404 "Download not found")))
  ∧ ∀ rec,
      active_downloads st !! download_id = Some rec →
      (∃ s, rec !! "status" = Some (PStr s) ∧ s ≠ "completed"
            ∧ download_file st fs download_id
              = Some (inl (HTTPException 400 "Download not completed")))
      ∨ rec !! "status" = Some (PStr "completed")
        ∧ ∃ ext result metadata title,
            rec !! "result" = Some (PDict result)
            ∧ result !! "file_path" = Some (PStr (file_path download_id ext))
            ∧ ext ∈ (video_exts ++ audio_exts)%list
            ∧ result !! "metadata" = Some (PDict metadata)
            ∧ metadata !! "title" = Some title
            ∧ match fs !! file_path download_id ext with
              | None =>
                  download_file st fs download_id
                  = Some (inl (HTTPException 404 "File not found"))
              | Some _ =>
                  download_file st fs download_id
                  = (λ t, inr {| path := file_path download_id ext;
                                 filename := t +:+ "." +:+ ext;
                                 media_type := "application/octet-stream" |})
                    <$> format_value title
              end.
Proof.
  intros Hreach Hid Hslash. split.
  { intros Hnone. unfold download_file. by rewrite Hnone. }
  intros rec Hrec.
  pose proof (reachable_record_shapes st Hreach download_id rec Hrec) as Hshape.
  assert (Hplain : ∀ s, rec !! "status" = Some (PStr s) → s ≠ "completed" →
            ∃ s0, rec !! "status" = Some (PStr s0) ∧ s0 ≠ "completed"
                  ∧ download_file st fs download_id
                    = Some (inl (HTTPException 400 "Download not completed"))).
  { intros s Hs Hne. exists s. unfold download_file.
    rewrite Hrec. rewrite Hs. simpl.
    pose proof Hne as Hne'. apply String.eqb_neq in Hne' as ->. done. }
  destruct (running st !! download_id) as [request|].
  { destruct Hshape as (Hs & _). left. by apply (Hplain "processing"). }
  destruct Hshape
    as [[(u & ext & sz & s & e & result & metadata & title & Hs & _ & _ & _
          & _ & _ & Hres & Hext & Hpath & _ & Hname & Hmeta & Htitle & _) _]
       |([Hs|Hs] & _)];
    [|left; by apply (Hplain "failed")|left; by apply (Hplain "processing")].
  right. split; [exact Hs|]. exists ext, result, metadata, title.
  split; [exact Hres|]. split; [exact Hpath|]. split; [exact Hext|].
  split; [exact Hmeta|]. split; [exact Htitle|].
  unfold download_file. rewrite Hrec, Hs. simpl. rewrite Hres. simpl.
  rewrite Hpath. destruct (fs !! file_path download_id ext); [|done].
  rewrite Hname, Hmeta. unfold dict_get. rewrite Htitle. simpl.
  rewrite path_suffix_file_path by done. simpl.
  by destruct (format_value title).
Qed.

Lemma download_file_completed
    st fs download_id rec result metadata file title t (name : pyval) :
  active_downloads st !! download_id = Some rec →
  rec !! "status" = Some (PStr "completed") →
  rec !! "result" = Some (PDict result) →
  result !! "file_path" = Some (PStr file) →
  is_Some (fs !! file) →
  result !! "filename" = Some name →
  result !! "metadata" = Some (PDict metadata) →
  metadata !! "title" = Some title →
  format_value title = Some t →
  download_file st fs download_id
  = Some (inr {| path := file;
                 filename := t +:+ "." +:+ drop_first (path_suffix file);
                 media_type := "application/octet-stream" |}).
Proof.
  intros Hrec Hs Hres Hpath [sz Hfile] Hname Hmeta Htitle Ht.
  unfold download_file. rewrite Hrec, Hs. simpl. rewrite Hres. simpl.
  rewrite Hpath, Hfile, Hname, Hmeta. unfold dict_get. rewrite Htitle. simpl.
  by rewrite Ht.
Qed.

(** X17: The name under which the file of a job is served is the title that
    the download call reported, or "Unknown" when it reported none, followed
    by a dot and the extension of the file: the fallback "video" of the
    endpoint is never used. *)
Theorem served_filename
    st fs' rec request download_id ydl fs now info ext st_size start_time title :
  rec !! "start_time" = Some (PInt start_time) →
  outcome (download_sync ydl) = inr info →
  elapsed (download_sync ydl) ≤ timeout_duration →
  find_downloaded fs download_id = Some (ext, st_size) →
  active_downloads st !! download_id
  = Some (download_video_finish rec request download_id ydl fs now).1 →
  download_id ≠ "" → after_last "/" download_id = None →
  format_value (dict_get info "title" (PStr "Unknown")) = Some title →
  is_Some (fs' !! file_path download_id ext) →
  download_file st fs' download_id
  = Some (inr {| path := file_path download_id ext;
                 filename := title +:+ "." +:+ ext;
                 media_type := "application/octet-stream" |}).
Proof.
  intros Hstart Hout Hin Hfind Hrec Hid Hslash Htitle Hfile.
  rewrite (download_video_finish_completed rec request download_id ydl fs now
             info ext st_size start_time Hstart Hout Hin Hfind) in Hrec.
  apply find_downloaded_Some in Hfind as [Hext _].
  erewrite (download_file_completed st fs' download_id _ _
              (metadata_of info (url request)) (file_path download_id ext)
              _ title);
    [|exact Hrec|by apply dict_update_new|by apply dict_update_new
     |reflexivity|exact Hfile|reflexivity|reflexivity|reflexivity
     |exact Htitle].
  by rewrite path_suffix_file_path.
Qed.

End Jobs.

(** ** The theorems at concrete jobs *)

#[local] Existing Instance starlette.

Lemma run_trace_admitted : run init trace_admitted = Some st_admitted.
Proof. vm_compute. reflexivity. Qed.

Lemma run_trace_timed_out : run init trace_timed_out = Some st_timed_out.
Proof. vm_compute. reflexivity. Qed.

(** C1 as stated fails: after a submission the store holds no record of
    the job, and the status endpoint answers 404 instead of queued. *)
Lemma submit_without_record_counterexample :
  step init (Submit "job-1" req_plain) = Some st_submitted
  ∧ tasks st_submitted !! "job-1" = Some req_plain
  ∧ active_downloads st_submitted !! "job-1" = None
  ∧ get_download_status st_submitted "job-1"
    = inl (HTTPException 404 "Download not found").
Proof. repeat split; vm_compute; reflexivity. Qed.

(** C1, amended, at the first submission of the service. *)
Lemma job_lifecycle_witness :
  reachable init
  ∧ step init (Submit "job-1" req_plain) = Some st_submitted
  ∧ get_download_status st_submitted "job-1"
    = inl (HTTPException 404 "Download not found").
Proof.
  assert (Hreach : reachable init) by (exists []; reflexivity).
  assert (Hstep : step init (Submit "job-1" req_plain) = Some st_submitted)
    by (vm_compute; reflexivity).
  split; [exact Hreach|]. split; [exact Hstep|].
  destruct (job_lifecycle init _ st_submitted "job-1" Hreach Hstep)
    as (_ & Hqueued & _).
  apply Hqueued. exists req_plain. vm_compute. reflexivity.
Defined.



(** C3 as stated fails: the extractor reports no size, the file written is
    600MB, and the job is completed with that size in its result. *)
Lemma completed_oversize_counterexample :
  rec_unsized_done !! "status" = Some (PStr "completed")
  ∧ result_file_size rec_unsized_done = Some (PInt 629145600)
  ∧ max_file_size < 629145600.
Proof. repeat split; vm_compute; reflexivity. Qed.

(** C3, amended, at the job that wrote 600MB. *)
Lemma completed_file_size_witness :
  has_status "completed"
    (download_video_finish rec_started req_plain "job-1" ydl_unsized
       fs_600mb 60).1 = true
  ∧ ∃ info ext st_size,
      inspect ydl_unsized = inr info
      ∧ (∀ n, info !! "filesize" = Some (PInt n) → n ≤ max_file_size)
      ∧ elapsed (download_sync ydl_unsized) ≤ timeout_duration
      ∧ find_downloaded fs_600mb "job-1" = Some (ext, st_size)
      ∧ fs_600mb !! file_path "job-1" ext = Some st_size
      ∧ result_file_size
          (download_video_finish rec_started req_plain "job-1" ydl_unsized
             fs_600mb 60).1
        = Some (PInt st_size).
Proof.
  assert (Hdone : has_status "completed"
            (download_video_finish rec_started req_plain "job-1" ydl_unsized
               fs_600mb 60).1 = true)
    by (vm_compute; reflexivity).
  split; [exact Hdone|].
  exact (completed_file_size rec_started req_plain "job-1" ydl_unsized
           fs_600mb 60 Hdone).
Defined.

(** C5 as stated fails: the download of a job that timed out goes on in
    its thread, and when it finishes the record of the job is put into
    processing, where it stays: the task is over. *)
Lemma timed_out_job_processing_counterexample :
  timeout_duration < elapsed (download_sync ydl_slow)
  ∧ ∃ st, run init trace_timed_out_finished = Some st
          ∧ status_of st "job-1" = Some (PStr "processing")
          ∧ (active_downloads st !! "job-1" ≫= (.!! "error"))
            = Some (PStr "408: Download timeout - file is too large or connection is slow")
          ∧ tasks st = ∅
          ∧ running st = ∅.
Proof.
  split; [vm_compute; reflexivity|].
  eexists. split; [vm_compute; reflexivity|].
  repeat split; vm_compute; reflexivity.
Qed.

(** C5, amended, at a job whose inspect takes 400 seconds and whose
    download takes 300: each is within the timeout, their sum is not. *)
Lemma timeout_fails_witness :
  reachable st_admitted
  ∧ running st_admitted !! "job-1" = Some req_plain
  ∧ active_downloads st_admitted !! "job-1" = Some rec_started
  ∧ timeout_duration < elapsed (download_sync ydl_slow)
  ∧ inspect_secs ydl_slow < timeout_duration
  ∧ download_secs ydl_slow < timeout_duration
  ∧ ∃ st', step st_admitted (Finish "job-1" ydl_slow ∅ 600) = Some st'
           ∧ status_of st' "job-1" = Some (PStr "failed")
           ∧ (active_downloads st' !! "job-1" ≫= (.!! "error"))
             = Some (PStr (str_HTTPException 408
                  "Download timeout - file is too large or connection is slow")).
Proof.
  assert (Hreach : reachable st_admitted)
    by (exists trace_admitted; exact run_trace_admitted).
  assert (Hrun : running st_admitted !! "job-1" = Some req_plain)
    by (vm_compute; reflexivity).
  assert (Hrec : active_downloads st_admitted !! "job-1" = Some rec_started)
    by (vm_compute; reflexivity).
  assert (Hlong : timeout_duration < elapsed (download_sync ydl_slow))
    by (vm_compute; reflexivity).
  destruct (timeout_fails st_admitted "job-1" req_plain rec_started ydl_slow
              ∅ 600 Hreach Hrun Hrec Hlong)
    as (_ & _ & st' & Hstep & Hfailed & Herr & _).
  split; [exact Hreach|].
  split; [exact Hrun|]. split; [exact Hrec|]. split; [exact Hlong|].
  split; [vm_compute; reflexivity|]. split; [vm_compute; reflexivity|].
  exists st'. split; [exact Hstep|]. split; [exact Hfailed | exact Herr].
Defined.


(** C10 at an inspect result without ['filesize'] and a 600MB file. *)
Lemma unsized_download_unbounded_witness :
  inspect ydl_unsized = inr info_no_filesize
  ∧ info_no_filesize !! "filesize" = None
  ∧ calls (download_sync ydl_unsized) = [Inspect; Download]
  ∧ result_file_size
      (download_video_finish rec_started req_plain "job-1" ydl_unsized
         fs_600mb 60).1
    = Some (PInt 629145600).
Proof.
  assert (Hins : inspect ydl_unsized = inr info_no_filesize) by reflexivity.
  assert (Hnone : info_no_filesize !! "filesize" = None)
    by (vm_compute; reflexivity).
  destruct (unsized_download_unbounded rec_started req_plain "job-1"
              ydl_unsized fs_600mb 60 info_no_filesize Hins (or_introl Hnone))
    as (_ & _ & Hsync & Hdone).
  split; [exact Hins|]. split; [exact Hnone|].
  split; [rewrite Hsync; reflexivity|].
  apply (Hdone info_no_filesize "mp4" 629145600 0);
    vm_compute; first [reflexivity | discriminate].
Defined.

(** C7 as stated fails: five jobs time out and give their permits back, a
    sixth is admitted, and the finished callbacks of the five abandoned
    downloads leave six records in status processing. *)
Lemma six_processing_counterexample :
  ∃ st, run init trace_burst = Some st
        ∧ count_status "processing" st = 6%nat
        ∧ (semaphore_capacity < count_status "processing" st)%nat
        ∧ size (running st) = 1%nat.
Proof.
  eexists. split; [vm_compute; reflexivity|].
  split; [vm_compute; reflexivity|]. split; vm_compute; [lia | reflexivity].
Qed.

(** C7, amended, at a burst of six submissions: five jobs hold the five
    permits, the job that timed out has a failed record that a late
    downloading callback has written to, and five records are in
    processing. *)
Lemma admission_gate_witness :
  ∃ st, run init trace_busy = Some st
        ∧ no_late_finished init trace_busy = true
        ∧ size (running st) = 5%nat
        ∧ semaphore st = 0%nat
        ∧ count_status "processing" st = 5%nat
        ∧ status_of st "job-1" = Some (PStr "failed")
        ∧ size (active_downloads st) = 6%nat.
Proof.
  destruct (run init trace_busy) as [st|] eqn:Hrun;
    [|vm_compute in Hrun; discriminate Hrun].
  destruct (admission_gate trace_busy st Hrun)
    as (_ & _ & Hpermits & Hcount & _).
  assert (Hquiet : no_late_finished init trace_busy = true)
    by (vm_compute; reflexivity).
  destruct (Hcount Hquiet) as [Hsame _].
  assert (Hfive : size (running st) = 5%nat).
  { vm_compute in Hrun. injection Hrun as <-. vm_compute. reflexivity. }
  exists st. split; [reflexivity|]. split; [exact Hquiet|].
  split; [exact Hfive|]. split.
  { rewrite Hfive in Hpermits. unfold semaphore_capacity in Hpermits. lia. }
  split; [by rewrite Hsame|].
  vm_compute in Hrun. injection Hrun as <-.
  split; vm_compute; reflexivity.
Defined.

(** C9 as stated fails: a job that has been accepted and waits for its
    admission is not in the count. *)
Lemma health_misses_queued_counterexample :
  step init (Submit "job-1" req_plain) = Some st_submitted
  ∧ tasks st_submitted !! "job-1" = Some req_plain
  ∧ health_check st_submitted !! "active_downloads" = Some (PInt 0).
Proof. repeat split; vm_compute; reflexivity. Qed.

(** C9, amended, at the trace of one job that times out. *)
Lemma health_counts_admitted_witness :
  run init trace_timed_out = Some st_timed_out
  ∧ health_check st_timed_out !! "active_downloads" = Some (PInt 1).
Proof.
  destruct (health_counts_admitted trace_timed_out st_timed_out
              run_trace_timed_out)
    as (_ & Hcount & Hsize & _).
  split; [exact run_trace_timed_out|].
  rewrite Hcount, Hsize. reflexivity.
Defined.

(** ** The further properties at concrete inputs *)

Lemma run_trace_done : run init trace_done = Some st_done.
Proof. vm_compute. reflexivity. Qed.

(** A Netflix URL contains "x.com": it is accepted, as a Twitter one. *)
Lemma domain_anywhere_accepted_witness :
  "x.com" ∈ supported_domains
  ∧ validate_supported_url "https://netflix.com/title/1"
    = inr "https://netflix.com/title/1"
  ∧ _detect_platform "https://netflix.com/title/1" = "twitter".
Proof.
  assert (Hd : "x.com" ∈ supported_domains) by (repeat constructor).
  destruct (domain_anywhere_accepted "x.com" "https://netfli" "/title/1" Hd)
    as [Hok _].
  split; [exact Hd|]. split; [exact Hok | reflexivity].
Defined.

Lemma listed_platforms_supported_witness :
  {| name := "TikTok"; domain := "tiktok.com";
     features := ["Watermark Free"; "HD Quality"] |} ∈ get_supported_platforms
  ∧ str_in "tiktok.com" "https://www.tiktok.com/@u/video/1" = true
  ∧ validate_supported_url "https://www.tiktok.com/@u/video/1"
    = inr "https://www.tiktok.com/@u/video/1".
Proof.
  assert (Hp : {| name := "TikTok"; domain := "tiktok.com";
                  features := ["Watermark Free"; "HD Quality"] |}
               ∈ get_supported_platforms) by (repeat constructor).
  assert (Hin : str_in "tiktok.com" "https://www.tiktok.com/@u/video/1" = true)
    by reflexivity.
  destruct (listed_platforms_supported _ _ Hp Hin) as [Hok _].
  split; [exact Hp|]. split; [exact Hin | exact Hok].
Defined.

(** A YouTube request and the same with another container format and
    without the watermark flag give the same options. *)
Lemma options_depend_on_witness :
  (_detect_platform (url req_youtube_720p) = "tiktok" →
   remove_watermark req_youtube_720p = false)
  ∧ extractor_options req_youtube_720p "job-1"
    = extractor_options
        {| url := url req_youtube_720p; format := "webm"; quality := "720p";
           audio_only := false; remove_watermark := false |} "job-1".
Proof.
  assert (Hw : _detect_platform (url req_youtube_720p) = "tiktok" →
               remove_watermark req_youtube_720p = false)
    by (vm_compute; discriminate).
  split; [exact Hw|].
  exact (options_depend_on req_youtube_720p
           {| url := url req_youtube_720p; format := "webm"; quality := "720p";
              audio_only := false; remove_watermark := false |} "job-1"
           eq_refl eq_refl (λ _, eq_refl) Hw).
Defined.

Lemma base_options_kept_witness :
  "retries" ≠ "format"
  ∧ base_options req_instagram_480p
      (_detect_platform (url req_instagram_480p)) "job-1" !! "retries"
    = Some (PInt 3)
  ∧ extractor_options req_instagram_480p "job-1" !! "retries" = Some (PInt 3).
Proof.
  assert (Hne : "retries" ≠ "format") by discriminate.
  assert (Hbase : base_options req_instagram_480p
                    (_detect_platform (url req_instagram_480p)) "job-1"
                  !! "retries" = Some (PInt 3)) by reflexivity.
  split; [exact Hne|]. split; [exact Hbase|].
  exact (base_options_kept req_instagram_480p "job-1" "retries" (PInt 3)
           Hne Hbase).
Defined.

(** The percentage of the first callback is lost to the second, which
    brings the speed only. *)
Lemma downloading_overwrites_witness :
  has_status "downloading" hook_downloading = true
  ∧ has_status "downloading" hook_downloading_speed = true
  ∧ ∃ rec1,
      progress_hook rec_started hook_downloading = Some rec1
      ∧ rec1 !! "progress" = Some (PStr " 99.9%")
      ∧ progress_hook rec1 hook_downloading_speed
        = progress_hook rec_started hook_downloading_speed
      ∧ (progress_hook rec_started hook_downloading_speed ≫= (.!! "progress"))
        = Some (PStr "N/A").
Proof.
  assert (H1 : has_status "downloading" hook_downloading = true)
    by (vm_compute; reflexivity).
  assert (H2 : has_status "downloading" hook_downloading_speed = true)
    by (vm_compute; reflexivity).
  split; [exact H1|]. split; [exact H2|].
  destruct (progress_hook rec_started hook_downloading) as [rec1|] eqn:Hhook;
    [|vm_compute in Hhook; discriminate Hhook].
  exists rec1. split; [reflexivity|]. split.
  - vm_compute in Hhook. injection Hhook as <-. vm_compute. reflexivity.
  - split; [|vm_compute; reflexivity].
    exact (downloading_overwrites rec_started hook_downloading
             hook_downloading_speed rec1 H1 H2 Hhook).
Defined.

Lemma no_known_file_fails_witness :
  outcome (download_sync ydl_unsized) = inr info_no_filesize
  ∧ elapsed (download_sync ydl_unsized) ≤ timeout_duration
  ∧ fs_opus !! "downloads/job-1.opus" = Some 1000
  ∧ (download_video_finish rec_started req_plain "job-1" ydl_unsized fs_opus
       60).1 !! "error"
    = Some (PStr (str_HTTPException 500 "No video file was downloaded")).
Proof.
  assert (Hout : outcome (download_sync ydl_unsized) = inr info_no_filesize)
    by (vm_compute; reflexivity).
  assert (Hin : elapsed (download_sync ydl_unsized) ≤ timeout_duration)
    by (vm_compute; discriminate).
  assert (Hnone : ∀ ext, ext ∈ (video_exts ++ audio_exts)%list →
                         fs_opus !! file_path "job-1" ext = None).
  { intros ext Hext. unfold video_exts, audio_exts in Hext. simpl in Hext.
    repeat (apply elem_of_cons in Hext as [->|Hext]);
      [..|by apply elem_of_nil in Hext]; vm_compute; reflexivity. }
  destruct (no_known_file_fails rec_started req_plain "job-1" ydl_unsized
              fs_opus 60 info_no_filesize Hout Hin Hnone) as (_ & Herr & _).
  split; [exact Hout|]. split; [exact Hin|].
  split; [vm_compute; reflexivity | exact Herr].
Defined.


Lemma completed_status_response_witness :
  rec_started !! "start_time" = Some (PInt 0)
  ∧ outcome (download_sync ydl_unsized) = inr info_no_filesize
  ∧ elapsed (download_sync ydl_unsized) ≤ timeout_duration
  ∧ find_downloaded fs_600mb "job-1" = Some ("mp4", 629145600)
  ∧ ∃ response,
      get_download_status st_done "job-1" = inr response
      ∧ response !! "status" = Some (PStr "completed")
      ∧ response !! "file_size" = Some (PInt 629145600)
      ∧ response !! "duration" = Some (PInt 60).
Proof.
  assert (Hstart : rec_started !! "start_time" = Some (PInt 0)) by reflexivity.
  assert (Hout : outcome (download_sync ydl_unsized) = inr info_no_filesize)
    by (vm_compute; reflexivity).
  assert (Hin : elapsed (download_sync ydl_unsized) ≤ timeout_duration)
    by (vm_compute; discriminate).
  assert (Hfind : find_downloaded fs_600mb "job-1" = Some ("mp4", 629145600))
    by (vm_compute; reflexivity).
  assert (Hrec : active_downloads st_done !! "job-1"
                 = Some (download_video_finish rec_started req_plain "job-1"
                           ydl_unsized fs_600mb 60).1)
    by (apply lookup_singleton_eq).
  destruct (completed_status_response st_done rec_started req_plain "job-1"
              ydl_unsized fs_600mb 60 info_no_filesize "mp4" 629145600 0
              Hstart Hout Hin Hfind Hrec)
    as (response & Hget & _ & Hs & _ & _ & Hsize & Hdur & _).
  split; [exact Hstart|]. split; [exact Hout|]. split; [exact Hin|].
  split; [exact Hfind|].
  exists response. split; [exact Hget|]. split; [exact Hs|].
  split; [exact Hsize | exact Hdur].
Defined.

Lemma result_xor_error_witness :
  reachable st_timed_out
  ∧ active_downloads st_timed_out !! "job-1" = Some rec_timed_out
  ∧ is_Some (rec_timed_out !! "error")
  ∧ rec_timed_out !! "result" = None.
Proof.
  assert (Hreach : reachable st_timed_out)
    by (exists trace_timed_out; exact run_trace_timed_out).
  assert (Hrec : active_downloads st_timed_out !! "job-1" = Some rec_timed_out)
    by (apply lookup_singleton_eq).
  destruct (result_xor_error st_timed_out "job-1" rec_timed_out Hreach Hrec)
    as (_ & Hover & _).
  split; [exact Hreach|]. split; [exact Hrec|].
  destruct (Hover eq_refl) as [[_ Herr]|[Herr Hres]].
  - vm_compute in Herr. discriminate Herr.
  - split; [exact Herr | exact Hres].
Defined.

Lemma status_endpoint_answers_witness :
  reachable st_timed_out
  ∧ (active_downloads st_timed_out !! "job-1" = None
     ∧ get_download_status st_timed_out "job-1"
       = inl (HTTPException 404 "Download not found")
     ∨ ∃ response s,
         get_download_status st_timed_out "job-1" = inr response
         ∧ response !! "download_id" = Some (PStr "job-1")
         ∧ status_of st_timed_out "job-1" = Some (PStr s)
         ∧ response !! "status" = Some (PStr s)
         ∧ s ∈ ["processing"; "completed"; "failed"]
         ∧ (s = "completed" →
            response !! "file_url"
            = Some (PStr ("/api/download/" +:+ "job-1" +:+ "/file"))
            ∧ (∃ st_size, response !! "file_size" = Some (PInt st_size))
            ∧ ∃ metadata, response !! "metadata" = Some (PDict metadata))).
Proof.
  assert (Hreach : reachable st_timed_out)
    by (exists trace_timed_out; exact run_trace_timed_out).
  split; [exact Hreach|].
  exact (status_endpoint_answers st_timed_out "job-1" Hreach).
Defined.

Lemma job_runs_once_witness :
  run init trace_timed_out = Some st_timed_out
  ∧ count_events (is_admit "job-1") trace_timed_out = 1%nat
  ∧ count_events (is_finish "job-1") trace_timed_out = 1%nat.
Proof.
  destruct (job_runs_once trace_timed_out st_timed_out "job-1"
              run_trace_timed_out) as (_ & _ & [_ Hadmit] & [_ Hfinish]).
  split; [exact run_trace_timed_out|]. split.
  - apply Hadmit. eexists. apply lookup_singleton_eq.
  - apply Hfinish. split; [eexists; apply lookup_singleton_eq | reflexivity].
Defined.

Lemma download_file_answers_witness :
  reachable st_done
  ∧ "job-1" ≠ ""
  ∧ after_last "/" "job-1" = None
  ∧ active_downloads st_done !! "job-1" = Some rec_unsized_done
  ∧ download_file st_done fs_600mb "job-1"
    = Some (inr {| path := "downloads/job-1.mp4"; filename := "Clip.mp4";
                   media_type := "application/octet-stream" |})
  ∧ download_file st_done ∅ "job-1"
    = Some (inl (HTTPException 404 "File not found")).
Proof.
  assert (Hreach : reachable st_done)
    by (exists trace_done; exact run_trace_done).
  assert (Hid : "job-1" ≠ "") by discriminate.
  assert (Hslash : after_last "/" "job-1" = None) by reflexivity.
  assert (Hrec : active_downloads st_done !! "job-1" = Some rec_unsized_done)
    by (apply lookup_singleton_eq).
  split; [exact Hreach|]. split; [exact Hid|]. split; [exact Hslash|].
  split; [exact Hrec|]. split.
  - destruct (download_file_answers st_done fs_600mb "job-1" Hreach Hid Hslash)
      as [_ Hsome].
    destruct (Hsome rec_unsized_done Hrec)
      as [(s & Hs & Hne & _)
         |(_ & ext & result & metadata & title & Hres & Hpath & _ & Hmeta
           & Htitle & Hfile)].
    { vm_compute in Hs. injection Hs as <-. by destruct Hne. }
    vm_compute in Hres. injection Hres as <-.
    vm_compute in Hpath. injection Hpath as <-.
    vm_compute in Hmeta. injection Hmeta as <-.
    vm_compute in Htitle. injection Htitle as <-.
    exact Hfile.
  - destruct (download_file_answers st_done ∅ "job-1" Hreach Hid Hslash)
      as [_ Hsome].
    destruct (Hsome rec_unsized_done Hrec)
      as [(s & Hs & Hne & _)
         |(_ & ext & result & metadata & title & _ & _ & _ & _ & _ & Hfile)].
    { vm_compute in Hs. injection Hs as <-. by destruct Hne. }
    rewrite lookup_empty in Hfile. exact Hfile.
Defined.

(** The job whose download reported the title "Clip" is served as
    "Clip.mp4"; its identity does not appear in the name. *)
Lemma served_filename_witness :
  rec_started !! "start_time" = Some (PInt 0)
  ∧ outcome (download_sync ydl_unsized) = inr info_no_filesize
  ∧ elapsed (download_sync ydl_unsized) ≤ timeout_duration
  ∧ find_downloaded fs_600mb "job-1" = Some ("mp4", 629145600)
  ∧ format_value (dict_get info_no_filesize "title" (PStr "Unknown"))
    = Some "Clip"
  ∧ download_file st_done fs_600mb "job-1"
    = Some (inr {| path := "downloads/job-1.mp4"; filename := "Clip.mp4";
                   media_type := "application/octet-stream" |}).
Proof.
  assert (Hstart : rec_started !! "start_time" = Some (PInt 0)) by reflexivity.
  assert (Hout : outcome (download_sync ydl_unsized) = inr info_no_filesize)
    by (vm_compute; reflexivity).
  assert (Hin : elapsed (download_sync ydl_unsized) ≤ timeout_duration)
    by (vm_compute; discriminate).
  assert (Hfind : find_downloaded fs_600mb "job-1" = Some ("mp4", 629145600))
    by (vm_compute; reflexivity).
  assert (Hrec : active_downloads st_done !! "job-1"
                 = Some (download_video_finish rec_started req_plain "job-1"
                           ydl_unsized fs_600mb 60).1)
    by (apply lookup_singleton_eq).
  assert (Htitle : format_value
                     (dict_get info_no_filesize "title" (PStr "Unknown"))
                   = Some "Clip") by (vm_compute; reflexivity).
  assert (Hfile : is_Some (fs_600mb !! file_path "job-1" "mp4"))
    by (eexists; vm_compute; reflexivity).
  split; [exact Hstart|]. split; [exact Hout|]. split; [exact Hin|].
  split; [exact Hfind|]. split; [exact Htitle|].
  exact (served_filename st_done fs_600mb rec_started req_plain "job-1"
           ydl_unsized fs_600mb 60 info_no_filesize "mp4" 629145600 0 "Clip"
           Hstart Hout Hin Hfind Hrec (ltac:(discriminate)) eq_refl Htitle
           Hfile).
Defined.
